(** * Randomized response with variable input size

    A shallow embedding of [algorithms/randomized_response_var_input_size.py]:
    the perturbation mechanism [randomized_response], the estimator inside
    [analyze_data], and the size loop / trial loop of the script.

    Modelling choices.
    - [np.float64] values are modelled by exact real numbers extended with the
      IEEE special values [+inf], [-inf] and [nan], which is what numpy's
      division returns (with a warning, not an exception) when the divisor is
      zero.  The arithmetic of this model is exact: it neither rounds nor
      overflows.  Where rounding or overflow of binary64 decides what the
      program does (p reaching 1.0, 0.5 or nan at extreme epsilon), module
      [Binary64] evaluates the same expressions on IEEE binary64 numbers.
    - [np.random.rand()] and [time.time()] read the ambient generator and the
      wall clock.  The world carries the sequence of values each of them will
      deliver and how many have been consumed so far.
    - The data frame is reduced to the two columns the script touches. *)

From Stdlib Require Import PrimFloat.
From Stdlib Require Import Reals Lra Lia ZArith List Bool.
From Stdlib Require Import Sorted.
Import ListNotations.

Open Scope R_scope.

(** ** Extended real arithmetic: the values of [np.float64] *)

Module NpFloat.

Inductive float64 : Type :=
| Fin (x : R)
| PInf
| NInf
| NaN.

Definition of_int (z : Z) : float64 := Fin (IZR z).
Definition of_len (n : nat) : float64 := Fin (INR n).

(** Sign of a real, used to pick the sign of an infinite result. *)
Inductive sign : Type := Neg | Zero | Pos.

Definition sgn (x : R) : sign :=
  if Rlt_dec x 0 then Neg else if Rlt_dec 0 x then Pos else Zero.

Definition neg (a : float64) : float64 :=
  match a with
  | Fin x => Fin (- x)
  | PInf => NInf
  | NInf => PInf
  | NaN => NaN
  end.

Definition add (a b : float64) : float64 :=
  match a, b with
  | NaN, _ | _, NaN => NaN
  | Fin x, Fin y => Fin (x + y)
  | PInf, NInf | NInf, PInf => NaN
  | PInf, _ | _, PInf => PInf
  | NInf, _ | _, NInf => NInf
  end.

Definition sub (a b : float64) : float64 := add a (neg b).

(** An infinity scaled by a finite factor. *)
Definition scale_inf (inf : float64) (y : R) : float64 :=
  match sgn y with
  | Pos => inf
  | Neg => neg inf
  | Zero => NaN
  end.

Definition mul (a b : float64) : float64 :=
  match a, b with
  | NaN, _ | _, NaN => NaN
  | Fin x, Fin y => Fin (x * y)
  | Fin x, (PInf | NInf) => scale_inf b x
  | (PInf | NInf), Fin y => scale_inf a y
  | PInf, PInf | NInf, NInf => PInf
  | PInf, NInf | NInf, PInf => NInf
  end.

(** Division as numpy performs it: a zero divisor raises nothing, the result
    is [nan] for [0/0] and an infinity otherwise.  Every zero divisor of this
    program is a [+0.0] (a length, a size, or [2 * 0.5 - 1]), so the sign of
    the infinity is the sign of the dividend. *)
Definition div (a b : float64) : float64 :=
  match a, b with
  | NaN, _ | _, NaN => NaN
  | Fin x, Fin y =>
      match sgn y with
      | Zero => match sgn x with Zero => NaN | Pos => PInf | Neg => NInf end
      | _ => Fin (x / y)
      end
  | Fin _, (PInf | NInf) => Fin 0
  | (PInf | NInf), Fin y =>
      match sgn y with Neg => neg a | _ => a end
  | (PInf | NInf), (PInf | NInf) => NaN
  end.

Definition abs (a : float64) : float64 :=
  match a with
  | Fin x => Fin (Rabs x)
  | PInf | NInf => PInf
  | NaN => NaN
  end.

(** [a < b]; false as soon as one side is [nan]. *)
Definition ltb (a b : float64) : bool :=
  match a, b with
  | NaN, _ | _, NaN => false
  | Fin x, Fin y => if Rlt_dec x y then true else false
  | NInf, NInf | PInf, _ => false
  | NInf, _ | Fin _, PInf => true
  | Fin _, NInf => false
  end.

(** [np.exp] on a finite argument, in exact arithmetic: the result is the
    real exponential, which neither rounds to 1.0 nor overflows to [+inf] as
    the binary64 function does at extreme arguments ([Binary64] below). *)
Definition np_exp (x : R) : float64 := Fin (exp x).

(** [np.mean] of a list: the sum divided by the number of elements. *)
Definition np_sum (l : list float64) : float64 := fold_left add l (Fin 0).
Definition np_mean (l : list float64) : float64 :=
  div (np_sum l) (of_len (length l)).

End NpFloat.
Import NpFloat.

(** ** The world: random generator and wall clock *)

Record world : Type := mkWorld {
  draws : nat -> R;   (* the values np.random.rand() delivers, in order *)
  drawn : nat;        (* how many of them have been consumed *)
  ticks : nat -> R;   (* the values time.time() delivers, in order *)
  ticked : nat        (* how many of them have been consumed *)
}.

(** ** Outcomes and the monad of the script

    A Python call either returns or raises.  The monad threads the world and
    stops at the first error. *)

Inductive error : Type :=
| InvalidParameter
| DegenerateMechanism
| SizeExceeded.

Inductive outcome (A : Type) : Type :=
| Returns (a : A)
| Raises (e : error).
Arguments Returns {A} a.
Arguments Raises {A} e.

Definition M (A : Type) : Type := world -> outcome (A * world).

Definition ret {A} (a : A) : M A := fun w => Returns (a, w).
Definition raise {A} (e : error) : M A := fun _ => Raises e.
Definition bind {A B} (m : M A) (k : A -> M B) : M B :=
  fun w =>
    match m w with
    | Returns (a, w') => k a w'
    | Raises e => Raises e
    end.

Declare Scope world_scope.
Delimit Scope world_scope with world.
Notation "x <- m ;; k" := (bind m (fun x => k))
  (at level 61, m at next level, right associativity) : world_scope.
Notation "' p <- m ;; k" := (bind m (fun p => k))
  (at level 61, p pattern, m at next level, right associativity) : world_scope.
Open Scope world_scope.

(** The world after [n] more draws, and after [n] more clock readings. *)
Definition skip_draws (n : nat) (w : world) : world :=
  mkWorld (draws w) (drawn w + n) (ticks w) (ticked w).
Definition skip_ticks (n : nat) (w : world) : world :=
  mkWorld (draws w) (drawn w) (ticks w) (ticked w + n).

Definition np_random_rand : M R :=
  fun w => Returns (draws w (drawn w), skip_draws 1 w).

Definition time_time : M R :=
  fun w => Returns (ticks w (ticked w), skip_ticks 1 w).

(** The expression [np.exp(epsilon) / (1 + np.exp(epsilon))] of lines 17
    and 34, in exact arithmetic.  [Binary64.p_of_exp] is the same expression
    on binary64 numbers, where it also takes the values 0.5, 1.0 and nan. *)
Definition p_of_epsilon (epsilon : R) : float64 :=
  div (np_exp epsilon) (add (Fin 1) (np_exp epsilon)).

(** ** The perturbation mechanism *)

Definition randomized_response (value : Z) (epsilon : R) : M Z :=
  let p := p_of_epsilon epsilon in
  r <- np_random_rand ;;
  if ltb (Fin r) p then ret value else ret (1 - value)%Z.

(** ** The data frame and [analyze_data] *)

Record frame : Type := mkFrame {
  HvyAlcoholConsump : list Z;
  HvyAlcoholConsump_noised : option (list Z)
}.

Definition len (data : frame) : Z := Z.of_nat (length (HvyAlcoholConsump data)).

(** [Series.sum()]. *)
Definition series_sum (col : list Z) : Z := fold_right Z.add 0%Z col.

(** [Series.apply(f)]: [f] is called on the elements in order. *)
Fixpoint series_apply (f : Z -> M Z) (col : list Z) : M (list Z) :=
  match col with
  | [] => ret []
  | x :: rest =>
      y <- f x ;;
      ys <- series_apply f rest ;;
      ret (y :: ys)
  end.

(** [data.loc[:, 'HvyAlcoholConsump_noised'] = col]. *)
Definition set_noised (data : frame) (col : list Z) : frame :=
  mkFrame (HvyAlcoholConsump data) (Some col).

(** [data.head(n)]: the first [n] rows, or all but the last [-n] rows when
    [n] is negative. *)
Definition head (n : Z) (data : frame) : frame :=
  let keep (A : Type) (l : list A) :=
    if (0 <=? n)%Z then firstn (Z.to_nat n) l
    else firstn (length l - Z.to_nat (- n)) l in
  mkFrame (keep Z (HvyAlcoholConsump data))
          (option_map (keep Z) (HvyAlcoholConsump_noised data)).

(** [data.copy()]: a frame that shares nothing with [data]; frames are values
    here, so the copy is the frame itself. *)
Definition copy (data : frame) : frame := data.

(** The column read back after the assignment. *)
Definition noised_column (data : frame) : list Z :=
  match HvyAlcoholConsump_noised data with
  | Some col => col
  | None => []
  end.

(** [analyze_data] mutates the frame it is given; the mutated frame is
    returned next to the function's result. *)
Definition analyze_data (data : frame) (epsilon : R)
  : M (frame * (Z * Z * float64)) :=
  let original_count := series_sum (HvyAlcoholConsump data) in
  col <- series_apply (fun x => randomized_response x epsilon)
                      (HvyAlcoholConsump data) ;;
  let data := set_noised data col in
  let noised_count := series_sum (noised_column data) in
  let total_count := len data in
  let p := p_of_epsilon epsilon in
  let denoised_proportion :=
    div (sub (div (of_int noised_count) (of_int total_count))
             (sub (Fin 1) p))
        (sub (mul (Fin 2) p) (Fin 1)) in
  let denoised_count := mul denoised_proportion (of_int total_count) in
  ret (data, (original_count, noised_count, denoised_count)).

(** ** The script: size loop and trial loop *)

(** One entry of [results]: the tuple
    [(size, mean_original_count, mean_noised_count, mean_denoised_count,
      relative_error, mean_runtime)]. *)
Record summary : Type := mkSummary {
  size_of : Z;
  mean_original_count : float64;
  mean_noised_count : float64;
  mean_denoised_count : float64;
  relative_error : float64;
  mean_runtime : float64
}.

(** The four lists a size accumulates over its trials. *)
Record trial_lists : Type := mkLists {
  original_counts : list Z;
  noised_counts : list Z;
  denoised_counts : list float64;
  runtimes : list R
}.

Definition no_trials : trial_lists := mkLists [] [] [] [].

(** The epsilon the script passes to [analyze_data]. *)
Definition script_epsilon : R := 1.

(** The number of trials per size: [range(10)]. *)
Definition trial_count : nat := 10.

(** The body of [for _ in range(10)]. *)
Definition trial_body (size : Z) (data : frame) (acc : trial_lists)
  : M trial_lists :=
  let subset_data := copy (head size data) in
  start_time <- time_time ;;
  '(_, (original_count, noised_count, denoised_count)) <-
     analyze_data subset_data script_epsilon ;;
  end_time <- time_time ;;
  let runtime := end_time - start_time in
  ret (mkLists (original_counts acc ++ [original_count])
               (noised_counts acc ++ [noised_count])
               (denoised_counts acc ++ [denoised_count])
               (runtimes acc ++ [runtime])).

Fixpoint trial_loop (k : nat) (size : Z) (data : frame) (acc : trial_lists)
  : M trial_lists :=
  match k with
  | O => ret acc
  | S k' => acc' <- trial_body size data acc ;; trial_loop k' size data acc'
  end.

(** The lines after the trial loop: means and relative error. *)
Definition summarize (size : Z) (acc : trial_lists) : summary :=
  let mean_original_count := np_mean (map of_int (original_counts acc)) in
  let mean_noised_count := np_mean (map of_int (noised_counts acc)) in
  let mean_denoised_count := np_mean (denoised_counts acc) in
  let mean_runtime := np_mean (map Fin (runtimes acc)) in
  let relative_error :=
    div (abs (sub mean_denoised_count mean_original_count)) (of_int size) in
  mkSummary size mean_original_count mean_noised_count mean_denoised_count
            relative_error mean_runtime.

(** [for size in input_sizes: ...], appending to [results]. *)
Fixpoint size_loop (input_sizes : list Z) (data : frame)
  (results : list summary) : M (list summary) :=
  match input_sizes with
  | [] => ret results
  | size :: rest =>
      if (size >? len data)%Z then size_loop rest data results
      else
        acc <- trial_loop trial_count size data no_trials ;;
        size_loop rest data (results ++ [summarize size acc])
  end.

(** The sizes the script asks for. *)
Definition input_sizes (data : frame) : list Z :=
  [1000; 10000; 30000; 50000; 100000; 150000; len data]%Z.

(** The script from loading to the end of the size loop. *)
Definition run_script (data : frame) : M (list summary) :=
  size_loop (input_sizes data) data [].

(** * Reference definitions

    Mathematical counterparts of the code, used to state its properties. *)

(** The logistic function, the mathematical value of [p]. *)
Definition logistic (epsilon : R) : R := exp epsilon / (1 + exp epsilon).

Definition rr_value (value : Z) (epsilon r : R) : Z :=
  if Rlt_dec r (logistic epsilon) then value else (1 - value)%Z.

(** The noised column: record [i] meets draw [k + i]. *)
Fixpoint noise (col : list Z) (epsilon : R) (f : nat -> R) (k : nat) : list Z :=
  match col with
  | [] => []
  | x :: rest => rr_value x epsilon (f k) :: noise rest epsilon f (S k)
  end.

(** The estimate as lines 33-36 compute it from the counts. *)
Definition denoise (noised_count total_count : Z) (epsilon : R) : float64 :=
  let p := p_of_epsilon epsilon in
  mul (div (sub (div (of_int noised_count) (of_int total_count))
                (sub (Fin 1) p))
           (sub (mul (Fin 2) p) (Fin 1)))
      (of_int total_count).

(** The formula of the estimator over the reals. *)
Definition estimate (noised_count n p : R) : R :=
  (noised_count / n - (1 - p)) / (2 * p - 1) * n.

(** What one trial records. *)
Record trial : Type := mkTrial {
  true_count : Z;
  noised_count : Z;
  estimated_count : float64;
  elapsed : R
}.

(** Trial number [i] (from 0) of a size whose slice is [slice], in a loop
    entered in world [w]: it meets the draws [i * n .. i * n + n - 1] and the
    clock readings [2 i] and [2 i + 1] that follow the ones [w] has consumed. *)
Definition trial_at (slice : list Z) (w : world) (i : nat) : trial :=
  let n := length slice in
  let col := noise slice script_epsilon (draws w) (drawn w + i * n) in
  mkTrial (series_sum slice)
          (series_sum col)
          (denoise (series_sum col) (Z.of_nat n) script_epsilon)
          (ticks w (ticked w + 2 * i + 1) - ticks w (ticked w + 2 * i)).

Definition record_trials (acc : trial_lists) (ts : list trial) : trial_lists :=
  mkLists (original_counts acc ++ map true_count ts)
          (noised_counts acc ++ map noised_count ts)
          (denoised_counts acc ++ map estimated_count ts)
          (runtimes acc ++ map elapsed ts).

(** The world after [k] trials on a slice of [n] records. *)
Definition after_trials (k n : nat) (w : world) : world :=
  mkWorld (draws w) (drawn w + k * n) (ticks w) (ticked w + 2 * k).

(** The summaries the size loop appends, and the world it ends in. *)
Fixpoint size_summaries (sizes : list Z) (data : frame) (w : world)
  : list summary * world :=
  match sizes with
  | [] => ([], w)
  | size :: rest =>
      if (size >? len data)%Z then size_summaries rest data w
      else
        let slice := HvyAlcoholConsump (head size data) in
        let ts := map (trial_at slice w) (seq 0 trial_count) in
        let (more, w') :=
          size_summaries rest data (after_trials trial_count (length slice) w) in
        (summarize size (record_trials no_trials ts) :: more, w')
  end.

(** Sum and arithmetic mean of a list of reals. *)
Definition Rsum (l : list R) : R := fold_right Rplus 0 l.
Definition arithmetic_mean (l : list R) : R := Rsum l / INR (length l).

(** A generator that always delivers 0 (every record is kept) and a clock that
    advances one second per reading. *)
Definition keeping_world : world :=
  mkWorld (fun _ => 0) 0 (fun k => INR k) 0.

(** A generator whose draws are all 9/10 (every record is flipped at
    epsilon 1). *)
Definition flipping_world : world :=
  mkWorld (fun _ => 9 / 10) 0 (fun k => INR k) 0.

(** A generator that delivers 9/10 as its second draw and 0 otherwise. *)
Definition mixed_world : world :=
  mkWorld (fun k => if Nat.eqb k 1 then 9 / 10 else 0) 0 (fun k => INR k) 0.

Definition frame_of (col : list Z) : frame := mkFrame col None.

(** The mechanism, called in any world whose next draw is [r], returns [v']
    and consumes that one draw. *)
Definition outcome_on_draw (v : Z) (epsilon r : R) (v' : Z) : Prop :=
  forall w : world,
    draws w (drawn w) = r ->
    randomized_response v epsilon w = Returns (v', skip_draws 1 w).

(** Probability, under a uniform draw from [0,1), of an event that is a
    half-open interval [a,b): its length. *)
Inductive uniform_prob (E : R -> Prop) : R -> Prop :=
| prob_interval (a b : R) :
    0 <= a <= b -> b <= 1 ->
    (forall r, 0 <= r < 1 -> (E r <-> a <= r < b)) ->
    uniform_prob E (b - a).

(** ** The lists of the plots

    After the size loop the script extracts three lists from [results]
    (lines 93-95) and plots the second and the third against the first. *)

Definition plot_sizes (results : list summary) : list Z :=
  map size_of results.
Definition plot_relative_errors (results : list summary) : list float64 :=
  map relative_error results.
Definition plot_runtimes (results : list summary) : list float64 :=
  map mean_runtime results.

(** ** Vocabulary for the further properties *)

(** A binary observation. *)
Definition binary (v : Z) : Prop := (v = 0 \/ v = 1)%Z.


(** The sizes the script asks for that fit the frame. *)
Definition fitting (sizes : list Z) (data : frame) : list Z :=
  filter (fun s => (s <=? len data)%Z) sizes.

(** A clock whose readings never go back. *)
Definition monotone_clock (w : world) : Prop :=
  forall i j : nat, (i <= j)%nat -> ticks w i <= ticks w j.

(** ** The mechanism for a given p

    Lines 18-21 of [randomized_response], with the value [p] that line 17
    computed left open: a number, an infinity or [nan]. *)

Definition mechanism (p : float64) (value : Z) : M Z :=
  r <- np_random_rand ;;
  if ltb (Fin r) p then ret value else ret (1 - value)%Z.

(** The mechanism with retention value [p], called in any world whose next
    draw is [r], returns [v'] and consumes that one draw. *)
Definition mechanism_outcome (p : float64) (v : Z) (r : R) (v' : Z) : Prop :=
  forall w : world,
    draws w (drawn w) = r ->
    mechanism p v w = Returns (v', skip_draws 1 w).

(** ** The retention probability in binary64

    Lines 17-21 on IEEE binary64 numbers.  [np.exp] is a function of numpy;
    its value at the argument is what the definitions take, and the values it
    returns at four arguments are recorded. *)

Module Binary64.

(** [e / (1 + e)] for [e] the value of [np.exp(epsilon)]. *)
Definition p_of_exp (e : float) : float :=
  PrimFloat.div e (PrimFloat.add 1%float e).

(** The branch [randomized_response] takes with draw [r]. *)
Definition randomized_response (value : Z) (e r : float) : Z :=
  if PrimFloat.ltb r (p_of_exp e) then value else (1 - value)%Z.


(** [np.exp(40.0)], about 2.35e17: larger than 2^53. *)
Definition exp_40 : float := 0x1.a220d397972ebp+57%float.


(** [np.exp(710.0)]: the exponential overflows. *)
Definition exp_710 : float := infinity.

End Binary64.

(** * Properties *)

(** ** Arithmetic of the extended reals *)

Lemma sgn_pos (x : R) : 0 < x -> sgn x = Pos.
Proof.
  intros H. unfold sgn.
  destruct (Rlt_dec x 0); [lra|]. destruct (Rlt_dec 0 x); [reflexivity|lra].
Qed.

Lemma sgn_neg (x : R) : x < 0 -> sgn x = Neg.
Proof.
  intros H. unfold sgn. destruct (Rlt_dec x 0); [reflexivity|lra].
Qed.

Lemma sgn_zero : sgn 0 = Zero.
Proof.
  unfold sgn. destruct (Rlt_dec 0 0); [lra|reflexivity].
Qed.

Lemma sgn_nonzero (x : R) : x <> 0 -> sgn x <> Zero.
Proof.
  intros H. destruct (Rtotal_order x 0) as [Hlt|[Heq|Hgt]].
  - rewrite sgn_neg by assumption. discriminate.
  - contradiction.
  - rewrite sgn_pos by assumption. discriminate.
Qed.

Lemma div_fin (x y : R) : y <> 0 -> div (Fin x) (Fin y) = Fin (x / y).
Proof.
  intros H. simpl. pose proof (sgn_nonzero y H) as Hs.
  destruct (sgn y); [reflexivity|contradiction|reflexivity].
Qed.

(** ** The retention probability *)

Lemma one_plus_exp_pos (epsilon : R) : 0 < 1 + exp epsilon.
Proof. pose proof (exp_pos epsilon). lra. Qed.

Lemma p_of_epsilon_fin (epsilon : R) :
  p_of_epsilon epsilon = Fin (logistic epsilon).
Proof.
  unfold p_of_epsilon, np_exp, logistic.
  cbn [add]. apply div_fin.
  pose proof (one_plus_exp_pos epsilon). lra.
Qed.

Lemma logistic_range (epsilon : R) : 0 < logistic epsilon < 1.
Proof.
  unfold logistic. pose proof (exp_pos epsilon) as He.
  split.
  - apply Rdiv_lt_0_compat; lra.
  - apply Rmult_lt_reg_r with (1 + exp epsilon); [lra|].
    unfold Rdiv. rewrite Rmult_assoc, Rinv_l by lra. lra.
Qed.

Lemma logistic_half_iff (epsilon : R) :
  (1 / 2 < logistic epsilon <-> 0 < epsilon) /\
  (logistic epsilon = 1 / 2 <-> epsilon = 0).
Proof.
  pose proof (exp_pos epsilon) as He.
  assert (Hl : logistic epsilon * (1 + exp epsilon) = exp epsilon).
  { unfold logistic, Rdiv. rewrite Rmult_assoc, Rinv_l by lra. lra. }
  assert (H1 : 1 < exp epsilon <-> 0 < epsilon).
  { split; intros H.
    - destruct (Rle_or_lt epsilon 0) as [Hle|]; [|assumption].
      destruct Hle as [Hlt|Heq].
      + apply exp_increasing in Hlt. rewrite exp_0 in Hlt. lra.
      + subst. rewrite exp_0 in H. lra.
    - apply exp_increasing in H. rewrite exp_0 in H. exact H. }
  assert (H2 : exp epsilon = 1 <-> epsilon = 0).
  { split; intros H.
    - apply exp_inv. rewrite exp_0. exact H.
    - subst. apply exp_0. }
  split; split; intros H.
  - apply H1. nra.
  - apply H1 in H. nra.
  - apply H2. nra.
  - apply H2 in H. nra.
Qed.

Lemma logistic_0 : logistic 0 = 1 / 2.
Proof. apply logistic_half_iff. reflexivity. Qed.

(** ** Running the monad *)

Lemma bind_returns {A B} (m : M A) (k : A -> M B) (w w' : world) (a : A) :
  m w = Returns (a, w') -> bind m k w = k a w'.
Proof. intros H. unfold bind. rewrite H. reflexivity. Qed.

Lemma skip_draws_0 (w : world) : skip_draws 0 w = w.
Proof. destruct w. unfold skip_draws. simpl. rewrite Nat.add_0_r. reflexivity. Qed.

Lemma skip_draws_add (n m : nat) (w : world) :
  skip_draws m (skip_draws n w) = skip_draws (n + m) w.
Proof. unfold skip_draws. simpl. rewrite Nat.add_assoc. reflexivity. Qed.

(** ** The mechanism as a function of its draw *)

Lemma randomized_response_run (value : Z) (epsilon : R) (w : world) :
  randomized_response value epsilon w
  = Returns (rr_value value epsilon (draws w (drawn w)), skip_draws 1 w).
Proof.
  unfold randomized_response, rr_value.
  rewrite p_of_epsilon_fin.
  erewrite bind_returns by reflexivity.
  cbn [ltb]. destruct (Rlt_dec _ _); reflexivity.
Qed.

Lemma rr_value_keep (value : Z) (epsilon r : R) :
  r < logistic epsilon -> rr_value value epsilon r = value.
Proof. intros H. unfold rr_value. destruct (Rlt_dec _ _); [reflexivity|contradiction]. Qed.

Lemma rr_value_flip (value : Z) (epsilon r : R) :
  logistic epsilon <= r -> rr_value value epsilon r = (1 - value)%Z.
Proof. intros H. unfold rr_value. destruct (Rlt_dec _ _); [lra|reflexivity]. Qed.

Lemma noise_length col epsilon f k :
  length (noise col epsilon f k) = length col.
Proof. revert k. induction col; intros; simpl; [|rewrite IHcol]; reflexivity. Qed.

Lemma noise_nth col epsilon f k i :
  (i < length col)%nat ->
  nth i (noise col epsilon f k) 0%Z = rr_value (nth i col 0%Z) epsilon (f (k + i)%nat).
Proof.
  revert k i. induction col as [|x rest IH]; intros k i Hi; simpl in Hi; [lia|].
  destruct i as [|i]; simpl.
  - rewrite Nat.add_0_r. reflexivity.
  - rewrite IH by lia. f_equal. f_equal. lia.
Qed.

Lemma series_apply_run (epsilon : R) (col : list Z) (w : world) :
  series_apply (fun x => randomized_response x epsilon) col w
  = Returns (noise col epsilon (draws w) (drawn w), skip_draws (length col) w).
Proof.
  revert w. induction col as [|x rest IH]; intros w.
  - simpl. unfold ret. rewrite skip_draws_0. reflexivity.
  - cbn [series_apply].
    erewrite bind_returns by apply randomized_response_run.
    erewrite bind_returns by apply IH.
    unfold ret. rewrite skip_draws_add. simpl.
    rewrite Nat.add_1_r. reflexivity.
Qed.

Lemma analyze_data_run (data : frame) (epsilon : R) (w : world) :
  let col := noise (HvyAlcoholConsump data) epsilon (draws w) (drawn w) in
  analyze_data data epsilon w
  = Returns (set_noised data col,
             (series_sum (HvyAlcoholConsump data), series_sum col,
              denoise (series_sum col) (len data) epsilon),
             skip_draws (length (HvyAlcoholConsump data)) w).
Proof.
  intros col. unfold analyze_data.
  erewrite bind_returns by apply series_apply_run.
  reflexivity.
Qed.

(** ** The estimator *)

Lemma denoise_fin (noised_count total_count : Z) (epsilon : R) :
  (0 < total_count)%Z ->
  2 * logistic epsilon - 1 <> 0 ->
  denoise noised_count total_count epsilon
  = Fin (estimate (IZR noised_count) (IZR total_count) (logistic epsilon)).
Proof.
  intros Hn Hp. unfold denoise, estimate, of_int.
  rewrite p_of_epsilon_fin.
  assert (Hn' : IZR total_count <> 0).
  { apply IZR_lt in Hn. lra. }
  rewrite (div_fin _ _ Hn').
  cbn [sub neg add mul].
  replace (2 * logistic epsilon + - (1)) with (2 * logistic epsilon - 1) by lra.
  rewrite (div_fin _ _ Hp). cbn [mul].
  reflexivity.
Qed.

Lemma denoise_degenerate (noised_count total_count : Z) :
  (0 <= total_count)%Z ->
  denoise noised_count total_count 0 = PInf \/
  denoise noised_count total_count 0 = NInf \/
  denoise noised_count total_count 0 = NaN.
Proof.
  intros Hn. unfold denoise, of_int.
  rewrite p_of_epsilon_fin, logistic_0.
  cbn [sub neg add mul].
  replace (2 * (1 / 2) + - (1)) with 0 by lra.
  destruct (Z.eq_dec total_count 0) as [->|Hnz].
  - cbn [div]. rewrite sgn_zero.
    destruct (sgn (IZR noised_count)); cbn; rewrite ?sgn_zero; cbn;
      unfold scale_inf; rewrite ?sgn_zero; auto.
  - assert (Hpos : 0 < IZR total_count) by (apply IZR_lt; lia).
    rewrite div_fin by lra.
    cbn [sub neg add div]. rewrite sgn_zero.
    destruct (sgn _); cbn [mul]; unfold scale_inf;
      rewrite ?(sgn_pos _ Hpos); auto.
Qed.

(** ** The trial loop *)

Lemma after_trials_0 (n : nat) (w : world) : after_trials 0 n w = w.
Proof.
  destruct w. unfold after_trials. simpl. rewrite !Nat.add_0_r. reflexivity.
Qed.

Lemma trial_body_run (size : Z) (data : frame) (acc : trial_lists)
  (w : world) (j : nat) :
  let slice := HvyAlcoholConsump (head size data) in
  let n := length slice in
  trial_body size data acc (after_trials j n w)
  = Returns (record_trials acc [trial_at slice w j], after_trials (S j) n w).
Proof.
  intros slice n. unfold trial_body, copy.
  erewrite bind_returns by reflexivity.
  erewrite bind_returns by apply analyze_data_run.
  cbv beta iota.
  erewrite bind_returns by reflexivity.
  fold slice. unfold len. cbn [set_noised HvyAlcoholConsump]. fold slice. fold n.
  unfold ret, record_trials, trial_at.
  cbn [map true_count noised_count estimated_count elapsed]. fold n.
  unfold skip_ticks, skip_draws, after_trials. cbn [draws drawn ticks ticked].
  apply f_equal. apply f_equal2; [reflexivity|].
  f_equal; lia.
Qed.

Lemma record_trials_app (acc : trial_lists) (ts us : list trial) :
  record_trials (record_trials acc ts) us = record_trials acc (ts ++ us).
Proof.
  unfold record_trials. cbn. rewrite !map_app, <- !app_assoc. reflexivity.
Qed.

Lemma trial_loop_run_from (k : nat) (size : Z) (data : frame) :
  forall (acc : trial_lists) (w : world) (j : nat),
  let slice := HvyAlcoholConsump (head size data) in
  let n := length slice in
  trial_loop k size data acc (after_trials j n w)
  = Returns (record_trials acc (map (trial_at slice w) (seq j k)),
             after_trials (j + k) n w).
Proof.
  induction k as [|k IH]; intros acc w j slice n.
  - cbn. unfold ret, record_trials. cbn. rewrite !app_nil_r, Nat.add_0_r.
    destruct acc; reflexivity.
  - cbn [trial_loop].
    erewrite bind_returns by apply trial_body_run.
    fold slice. fold n. rewrite IH. fold slice. fold n.
    rewrite record_trials_app. cbn [seq map app].
    replace (S j + k)%nat with (j + S k)%nat by lia. reflexivity.
Qed.

Lemma trial_loop_run (k : nat) (size : Z) (data : frame) (w : world) :
  let slice := HvyAlcoholConsump (head size data) in
  trial_loop k size data no_trials w
  = Returns (record_trials no_trials (map (trial_at slice w) (seq 0 k)),
             after_trials k (length slice) w).
Proof.
  intros slice.
  pose proof (trial_loop_run_from k size data no_trials w 0) as H.
  cbn zeta in H. rewrite after_trials_0 in H. exact H.
Qed.

(** ** The size loop *)

Lemma size_loop_run (sizes : list Z) (data : frame) :
  forall (results : list summary) (w : world),
  size_loop sizes data results w
  = Returns (results ++ fst (size_summaries sizes data w),
             snd (size_summaries sizes data w)).
Proof.
  induction sizes as [|size rest IH]; intros results w.
  - cbn. unfold ret. rewrite app_nil_r. reflexivity.
  - cbn [size_loop size_summaries].
    destruct (size >? len data)%Z.
    + apply IH.
    + erewrite bind_returns by apply trial_loop_run.
      rewrite IH.
      destruct (size_summaries rest data _) as [more w'].
      cbn [fst snd]. rewrite <- app_assoc. reflexivity.
Qed.

Lemma size_summaries_sizes (sizes : list Z) (data : frame) :
  forall w : world,
  map size_of (fst (size_summaries sizes data w))
  = filter (fun s => (s <=? len data)%Z) sizes.
Proof.
  induction sizes as [|size rest IH]; intros w; [reflexivity|].
  cbn [size_summaries filter].
  rewrite Z.gtb_ltb, Z.ltb_antisym.
  destruct (size <=? len data)%Z; cbn [negb].
  - specialize (IH (after_trials trial_count
        (length (HvyAlcoholConsump (head size data))) w)).
    destruct (size_summaries rest data _) as [more w'].
    cbn [fst map] in *. rewrite IH. reflexivity.
  - apply IH.
Qed.

(** The script always returns, with one summary per requested size that
    fits. *)
Lemma run_script_sizes (data : frame) (w : world) :
  exists results w',
    run_script data w = Returns (results, w')
    /\ map size_of results
       = filter (fun s => (s <=? len data)%Z) (input_sizes data).
Proof.
  unfold run_script. rewrite size_loop_run. eexists _, _.
  split; [reflexivity|]. cbn [app]. apply size_summaries_sizes.
Qed.

(** ** Slices *)

Lemma head_prefix (size : Z) (data : frame) :
  (0 <= size)%Z ->
  HvyAlcoholConsump (head size data)
  = firstn (Z.to_nat size) (HvyAlcoholConsump data).
Proof.
  intros H. unfold head. cbn [HvyAlcoholConsump].
  destruct (Z.leb_spec 0 size); [reflexivity|lia].
Qed.

Lemma head_length (size : Z) (data : frame) :
  (0 <= size <= len data)%Z ->
  length (HvyAlcoholConsump (head size data)) = Z.to_nat size.
Proof.
  intros [H0 H1]. rewrite head_prefix by assumption.
  apply firstn_length_le. unfold len in H1. lia.
Qed.

(** ** Means *)

Lemma np_sum_fin_from (l : list R) :
  forall a : R, fold_left add (map Fin l) (Fin a) = Fin (a + Rsum l).
Proof.
  induction l as [|x l IH]; intros a; cbn.
  - f_equal. lra.
  - rewrite IH. f_equal. unfold Rsum. lra.
Qed.

Lemma np_mean_fin (l : list R) :
  l <> [] -> np_mean (map Fin l) = Fin (arithmetic_mean l).
Proof.
  intros Hl. unfold np_mean, np_sum, of_len, arithmetic_mean.
  rewrite np_sum_fin_from, length_map, div_fin.
  - f_equal. f_equal. lra.
  - destruct l; [contradiction|]. apply not_0_INR. discriminate.
Qed.

Lemma np_mean_of_int (l : list Z) :
  l <> [] -> np_mean (map of_int l) = Fin (arithmetic_mean (map IZR l)).
Proof.
  intros Hl. unfold of_int.
  rewrite <- (map_map IZR Fin). rewrite np_mean_fin; [reflexivity|].
  destruct l; [contradiction|discriminate].
Qed.

Lemma logistic_1_bounds : 1 / 2 < logistic 1 <= 3 / 4.
Proof.
  split.
  - apply logistic_half_iff. lra.
  - unfold logistic. pose proof exp_le_3 as H3. pose proof (exp_pos 1) as Hp.
    apply Rmult_le_reg_r with (1 + exp 1); [lra|].
    unfold Rdiv at 1. rewrite Rmult_assoc, Rinv_l by lra. lra.
Qed.

(** ** The retention probability in exact arithmetic *)

(** In exact arithmetic the expression of line 17 is, for every epsilon > 0,
    a number strictly between 0.5 and 1. *)
Theorem retention_probability_range (epsilon : R) :
  0 < epsilon ->
  exists p : R, p_of_epsilon epsilon = Fin p /\ 1 / 2 < p < 1.
Proof.
  intros Heps. exists (logistic epsilon). split.
  - apply p_of_epsilon_fin.
  - split.
    + apply logistic_half_iff. exact Heps.
    + apply logistic_range.
Qed.

(** ** C1: the estimate *)



(** ** C2, C5, C10: the perturbation mechanism *)

(** An event has at most one probability. *)
Lemma uniform_prob_unique (E : R -> Prop) (x y : R) :
  uniform_prob E x -> uniform_prob E y -> x = y.
Proof.
  intros [a b Hab Hb HE] [c d Hcd Hd HE'].
  assert (Hsame : forall r, 0 <= r < 1 -> (a <= r < b <-> c <= r < d)).
  { intros r Hr. rewrite <- HE, <- HE' by exact Hr. reflexivity. }
  destruct (Rle_lt_or_eq_dec a b (proj2 Hab)) as [Hlt|Heq];
    destruct (Rle_lt_or_eq_dec c d (proj2 Hcd)) as [Hlt'|Heq'].
  - assert (a = c).
    { destruct (Rtotal_order a c) as [H|[H|H]]; [|exact H|].
      - assert (Hm : a <= a < b) by lra.
        apply Hsame in Hm; lra.
      - assert (Hm : c <= c < d) by lra.
        apply Hsame in Hm; lra. }
    assert (b = d).
    { subst c. destruct (Rtotal_order b d) as [H|[H|H]]; [|exact H|].
      - assert (Hm : a <= (Rmax a b + d) / 2 < d).
        { unfold Rmax. destruct (Rle_dec a b); lra. }
        apply Hsame in Hm; unfold Rmax in *; destruct (Rle_dec a b); lra.
      - assert (Hm : a <= (Rmax a d + b) / 2 < b).
        { unfold Rmax. destruct (Rle_dec a d); lra. }
        apply Hsame in Hm; unfold Rmax in *; destruct (Rle_dec a d); lra. }
    lra.
  - assert (Hm : a <= a < b) by lra.
    apply Hsame in Hm; lra.
  - assert (Hm : c <= c < d) by lra.
    apply Hsame in Hm; lra.
  - lra.
Qed.

Lemma outcome_on_draw_iff (v : Z) (epsilon r : R) (v' : Z) :
  outcome_on_draw v epsilon r v' <-> rr_value v epsilon r = v'.
Proof.
  unfold outcome_on_draw. split.
  - intros H.
    specialize (H (mkWorld (fun _ => r) 0 (fun _ => 0) 0) eq_refl).
    rewrite randomized_response_run in H. cbn in H. congruence.
  - intros H w Hr. rewrite randomized_response_run, Hr, H. reflexivity.
Qed.

(** In exact arithmetic, for v in {0,1} and epsilon > 0: a call whose draw is
    r in [0,1) returns v exactly when r < e^epsilon / (1 + e^epsilon) and
    1 - v otherwise; the draws that keep v form [0,p) and those that flip it
    form [p,1). *)
Theorem randomized_response_keeps_with_probability_p (v : Z) (epsilon : R) :
  (v = 0 \/ v = 1)%Z ->
  0 < epsilon ->
  p_of_epsilon epsilon = Fin (logistic epsilon)
  /\ uniform_prob (fun r => outcome_on_draw v epsilon r v) (logistic epsilon)
  /\ uniform_prob (fun r => outcome_on_draw v epsilon r (1 - v)%Z)
                  (1 - logistic epsilon)
  /\ (forall w : world,
        0 <= draws w (drawn w) < 1 ->
        exists v' : Z,
          randomized_response v epsilon w = Returns (v', skip_draws 1 w)
          /\ (v' = v <-> draws w (drawn w) < logistic epsilon)
          /\ (v' = (1 - v)%Z <-> logistic epsilon <= draws w (drawn w))
          /\ outcome_on_draw v epsilon (draws w (drawn w)) v')
  /\ (forall (col : list Z) (w : world),
        exists noised : list Z,
          series_apply (fun x => randomized_response x epsilon) col w
          = Returns (noised, skip_draws (length col) w)
          /\ length noised = length col
          /\ forall i, (i < length col)%nat ->
               outcome_on_draw (nth i col 0%Z) epsilon
                               (draws w (drawn w + i)) (nth i noised 0%Z)).
Proof.
  intros Hv Heps. pose proof (logistic_range epsilon) as [Hp0 Hp1].
  assert (Hne : v <> (1 - v)%Z) by lia.
  assert (Hkeep : forall r, rr_value v epsilon r = v <-> r < logistic epsilon).
  { intros r. unfold rr_value. destruct (Rlt_dec _ _); split; intros;
      try reflexivity; try assumption; try contradiction. congruence. }
  assert (Hflip : forall r,
            rr_value v epsilon r = (1 - v)%Z <-> logistic epsilon <= r).
  { intros r. unfold rr_value. destruct (Rlt_dec _ _); split; intros;
      try reflexivity; try lra. congruence. }
  split; [apply p_of_epsilon_fin|]. split; [|split; [|split]].
  - replace (logistic epsilon) with (logistic epsilon - 0) by lra.
    constructor; [lra|lra|]. intros r Hr.
    rewrite outcome_on_draw_iff, Hkeep. lra.
  - constructor; [lra|lra|]. intros r Hr.
    rewrite outcome_on_draw_iff, Hflip. lra.
  - intros w Hr. exists (rr_value v epsilon (draws w (drawn w))).
    split; [apply randomized_response_run|].
    split; [apply Hkeep|]. split; [apply Hflip|].
    apply outcome_on_draw_iff. reflexivity.
  - intros col w. eexists. split; [apply series_apply_run|].
    split; [apply noise_length|].
    intros i Hi. apply outcome_on_draw_iff. symmetry.
    apply noise_nth. exact Hi.
Qed.

(** C10. For v in {0,1}, any real epsilon and any draw, the mechanism returns
    a value of {0,1}: it is v or 1 - v. *)
Theorem randomized_response_binary (v : Z) (epsilon : R) (w : world) :
  (v = 0 \/ v = 1)%Z ->
  exists (v' : Z) (w' : world),
    randomized_response v epsilon w = Returns (v', w')
    /\ (v' = 0 \/ v' = 1)%Z
    /\ (v' = v \/ v' = 1 - v)%Z.
Proof.
  intros Hv. rewrite randomized_response_run.
  eexists _, _. split; [reflexivity|].
  unfold rr_value. destruct (Rlt_dec _ _); lia.
Qed.

Lemma randomized_response_binary_witness :
  (0 = 0 \/ 0 = 1)%Z /\
  exists (v' : Z) (w' : world),
    randomized_response 0 (-1) flipping_world = Returns (v', w')
    /\ (v' = 0 \/ v' = 1)%Z
    /\ (v' = 0 \/ v' = 1 - 0)%Z.
Proof.
  assert (H : (0 = 0 \/ 0 = 1)%Z) by (left; reflexivity).
  split; [exact H|].
  exact (randomized_response_binary 0 (-1) flipping_world H).
Defined.



(** ** C4: epsilon = 0 *)

Lemma denoise_degenerate_sign (noised_count total_count : Z) :
  (0 < total_count)%Z ->
  denoise noised_count total_count 0
  = match (2 * noised_count ?= total_count)%Z with
    | Gt => PInf
    | Lt => NInf
    | Eq => NaN
    end.
Proof.
  intros Hn. unfold denoise, of_int.
  rewrite p_of_epsilon_fin, logistic_0.
  assert (Hpos : 0 < IZR total_count) by (apply IZR_lt; lia).
  rewrite div_fin by lra.
  cbn [sub neg add mul].
  replace (2 * (1 / 2) + - (1)) with 0 by lra.
  cbn [div]. rewrite sgn_zero.
  set (d := IZR noised_count / IZR total_count + - (1 + - (1 / 2))).
  assert (Hd : d * (2 * IZR total_count)
               = IZR (2 * noised_count) - IZR total_count).
  { unfold d. rewrite mult_IZR. field. lra. }
  destruct (Z.compare_spec (2 * noised_count) total_count) as [H|H|H].
  - rewrite H in Hd. assert (d = 0) by nra. subst d.
    replace (IZR noised_count / IZR total_count + - (1 + - (1 / 2))) with 0
      by lra.
    rewrite sgn_zero. reflexivity.
  - apply IZR_lt in H. rewrite sgn_neg by nra.
    cbn [mul]. unfold scale_inf. rewrite sgn_pos by assumption. reflexivity.
  - apply IZR_lt in H. rewrite sgn_pos by nra.
    cbn [mul]. unfold scale_inf. rewrite sgn_pos by assumption. reflexivity.
Qed.

Lemma denoise_degenerate_empty (noised_count : Z) :
  denoise noised_count 0 0 = NaN.
Proof.
  unfold denoise, of_int.
  rewrite p_of_epsilon_fin, logistic_0.
  cbn [sub neg add mul].
  replace (2 * (1 / 2) + - (1)) with 0 by lra.
  cbn [div]. rewrite sgn_zero.
  destruct (sgn (IZR noised_count)); cbn; rewrite ?sgn_zero; cbn;
    unfold scale_inf; rewrite ?sgn_zero; reflexivity.
Qed.

(** C4, as the spec states it, fails: with epsilon = 0 the estimator raises
    no DegenerateMechanism error; on the one-row frame [1] it returns the
    float [+inf] as its estimate. *)
Lemma degenerate_mechanism_not_raised :
  analyze_data (frame_of [1]%Z) 0 keeping_world
  = Returns (set_noised (frame_of [1]%Z) [1]%Z,
             (1%Z, 1%Z, PInf),
             skip_draws 1 keeping_world)
  /\ analyze_data (frame_of [1]%Z) 0 keeping_world
     <> Raises DegenerateMechanism.
Proof.
  rewrite analyze_data_run. cbv zeta.
  cbn [frame_of HvyAlcoholConsump noise keeping_world draws drawn length].
  rewrite rr_value_keep by (rewrite logistic_0; lra).
  cbn [series_sum fold_right Z.add]. unfold len.
  cbn [HvyAlcoholConsump length Z.of_nat Pos.of_succ_nat].
  rewrite denoise_degenerate_sign by reflexivity.
  cbn. split; [reflexivity|discriminate].
Qed.

(** C4, amended. With epsilon = 0 the retention probability is exactly 0.5
    and the estimator raises no error: it divides by the zero (2p - 1) as
    numpy does and returns a non-finite float as estimated_count; on a
    non-empty frame it is [+inf] when 2 * noised_count > n, [-inf] when
    2 * noised_count < n and [nan] when 2 * noised_count = n, and it is
    [nan] on an empty frame. *)
Theorem analyze_data_epsilon_0 (data : frame) (w : world) :
  exists data' original_count noised_count estimated w',
    analyze_data data 0 w
    = Returns (data', (original_count, noised_count, estimated), w')
    /\ p_of_epsilon 0 = Fin (1 / 2)
    /\ (estimated = PInf \/ estimated = NInf \/ estimated = NaN)
    /\ ((0 < len data)%Z ->
        estimated = match (2 * noised_count ?= len data)%Z with
                    | Gt => PInf
                    | Lt => NInf
                    | Eq => NaN
                    end)
    /\ (len data = 0%Z -> estimated = NaN).
Proof.
  eexists _, _, _, _, _. split; [apply analyze_data_run|].
  split; [rewrite p_of_epsilon_fin, logistic_0; reflexivity|].
  split; [|split].
  - apply denoise_degenerate. unfold len. lia.
  - apply denoise_degenerate_sign.
  - intros E. rewrite E. apply denoise_degenerate_empty.
Qed.

Lemma analyze_data_epsilon_0_witness :
  (0 < len (frame_of [1; 0]%Z))%Z /\
  exists data' original_count noised_count estimated w',
    analyze_data (frame_of [1; 0]%Z) 0 keeping_world
    = Returns (data', (original_count, noised_count, estimated), w')
    /\ p_of_epsilon 0 = Fin (1 / 2)
    /\ (estimated = PInf \/ estimated = NInf \/ estimated = NaN)
    /\ ((0 < len (frame_of [1; 0]%Z))%Z ->
        estimated = match (2 * noised_count ?= len (frame_of [1; 0]%Z))%Z with
                    | Gt => PInf
                    | Lt => NInf
                    | Eq => NaN
                    end)
    /\ (len (frame_of [1; 0]%Z) = 0%Z -> estimated = NaN).
Proof.
  split; [reflexivity|].
  exact (analyze_data_epsilon_0 (frame_of [1; 0]%Z) keeping_world).
Defined.

(** ** C6: what the estimate depends on *)

(** C6. Two runs of [analyze_data] that agree on noised_count, on the number
    of rows and on p return the same estimated_count, whatever their frames
    (and so their true counts) are. *)
Theorem estimate_depends_on_counts_only
  (data1 data2 : frame) (epsilon1 epsilon2 : R) (w1 w2 : world)
  (out1 out2 : frame) (true1 true2 noised1 noised2 : Z)
  (estimated1 estimated2 : float64) (w1' w2' : world) :
  analyze_data data1 epsilon1 w1
    = Returns (out1, (true1, noised1, estimated1), w1') ->
  analyze_data data2 epsilon2 w2
    = Returns (out2, (true2, noised2, estimated2), w2') ->
  noised1 = noised2 ->
  len data1 = len data2 ->
  p_of_epsilon epsilon1 = p_of_epsilon epsilon2 ->
  estimated1 = estimated2.
Proof.
  intros H1 H2 Hc Hn Hp.
  rewrite analyze_data_run in H1, H2. cbv zeta in H1, H2.
  injection H1 as _ _ Hc1 He1 _. injection H2 as _ _ Hc2 He2 _.
  subst estimated1 estimated2.
  rewrite Hc1, Hc2, Hc, Hn. unfold denoise. rewrite Hp. reflexivity.
Qed.

Lemma estimate_depends_on_counts_only_witness :
  analyze_data (frame_of [1; 0]%Z) 1 keeping_world
  = Returns (set_noised (frame_of [1; 0]%Z) [1; 0]%Z,
             (1%Z, 1%Z, denoise 1 2 1), skip_draws 2 keeping_world)
  /\ analyze_data (frame_of [1; 1]%Z) 1 mixed_world
     = Returns (set_noised (frame_of [1; 1]%Z) [1; 0]%Z,
                (2%Z, 1%Z, denoise 1 2 1), skip_draws 2 mixed_world)
  /\ denoise 1 2 1 = denoise 1 2 1.
Proof.
  pose proof logistic_1_bounds as [Hlo Hhi].
  assert (H1 : analyze_data (frame_of [1; 0]%Z) 1 keeping_world
    = Returns (set_noised (frame_of [1; 0]%Z) [1; 0]%Z,
               (1%Z, 1%Z, denoise 1 2 1), skip_draws 2 keeping_world)).
  { rewrite analyze_data_run. cbv zeta.
    cbn [frame_of HvyAlcoholConsump noise keeping_world draws drawn length].
    rewrite !rr_value_keep by lra. reflexivity. }
  assert (H2 : analyze_data (frame_of [1; 1]%Z) 1 mixed_world
    = Returns (set_noised (frame_of [1; 1]%Z) [1; 0]%Z,
               (2%Z, 1%Z, denoise 1 2 1), skip_draws 2 mixed_world)).
  { rewrite analyze_data_run. cbv zeta.
    cbn [frame_of HvyAlcoholConsump noise mixed_world draws drawn length
         Nat.eqb].
    rewrite rr_value_keep by lra. rewrite rr_value_flip by lra.
    reflexivity. }
  split; [exact H1|]. split; [exact H2|].
  exact (estimate_depends_on_counts_only _ _ _ _ _ _ _ _ _ _ _ _ _ _ _ _
           H1 H2 eq_refl eq_refl eq_refl).
Defined.

(** ** C7: sizes larger than the data *)

(** C7. A requested size s larger than the number of rows is skipped: the
    loop goes on with the remaining sizes in the same world, the run raises
    nothing, no summary carries the size s, and the sizes of the summaries
    are exactly the requested sizes that fit, in the order requested (so
    nothing stands in for s). *)
Theorem oversized_size_skipped (sizes : list Z) (data : frame) (w : world)
  (s : Z) :
  In s sizes ->
  (len data < s)%Z ->
  (forall rest results w0,
      size_loop (s :: rest) data results w0 = size_loop rest data results w0)
  /\ exists results w',
      size_loop sizes data [] w = Returns (results, w')
      /\ ~ In s (map size_of results)
      /\ map size_of results = filter (fun x => (x <=? len data)%Z) sizes.
Proof.
  intros Hin Hs. split.
  - intros rest results w0. cbn [size_loop].
    destruct (Z.gtb_spec s (len data)); [reflexivity|lia].
  - rewrite size_loop_run. eexists _, _. split; [reflexivity|].
    cbn [app]. rewrite size_summaries_sizes. split; [|reflexivity].
    intros Hf. apply filter_In in Hf. destruct Hf as [_ Hle].
    apply Z.leb_le in Hle. lia.
Qed.

Lemma oversized_size_skipped_witness :
  In 1000%Z [1000; 1]%Z /\
  (len (frame_of [1; 0]%Z) < 1000)%Z /\
  exists results w',
    size_loop [1000; 1]%Z (frame_of [1; 0]%Z) [] keeping_world
    = Returns (results, w')
    /\ ~ In 1000%Z (map size_of results)
    /\ map size_of results
       = filter (fun x => (x <=? len (frame_of [1; 0]%Z))%Z) [1000; 1]%Z.
Proof.
  assert (H1 : In 1000%Z [1000; 1]%Z) by (left; reflexivity).
  assert (H2 : (len (frame_of [1; 0]%Z) < 1000)%Z) by reflexivity.
  split; [exact H1|]. split; [exact H2|].
  exact (proj2 (oversized_size_skipped [1000; 1]%Z (frame_of [1; 0]%Z)
                  keeping_world 1000 H1 H2)).
Defined.

(** ** C8: the slice of a trial *)

Lemma nth_map_seq {A} (f : nat -> A) (k i : nat) (d : A) :
  (i < k)%nat -> nth i (map f (seq 0 k)) d = f i.
Proof.
  intros Hi.
  rewrite (nth_indep _ d (f 0%nat)) by (rewrite length_map, length_seq; exact Hi).
  rewrite (map_nth f (seq 0 k) 0%nat i), seq_nth by exact Hi. reflexivity.
Qed.

(** C8. For a size s with 0 <= s <= number of rows, the frame every trial
    hands to [analyze_data] holds exactly the first s observations in their
    order; each of the trials counts the ones of that same prefix, noises its
    j-th observation with the j-th draw of the trial, and the whole trial
    loop is the same for any other frame with the same first s
    observations. *)
Theorem trials_use_prefix (s : Z) (data : frame) (w : world) :
  (0 <= s <= len data)%Z ->
  let prefix := firstn (Z.to_nat s) (HvyAlcoholConsump data) in
  HvyAlcoholConsump (copy (head s data)) = prefix
  /\ length prefix = Z.to_nat s
  /\ (exists acc w',
        trial_loop trial_count s data no_trials w = Returns (acc, w')
        /\ length (original_counts acc) = trial_count
        /\ length (noised_counts acc) = trial_count
        /\ forall i, (i < trial_count)%nat ->
             nth i (original_counts acc) 0%Z = series_sum prefix
             /\ nth i (noised_counts acc) 0%Z
                = series_sum (noise prefix script_epsilon (draws w)
                                    (drawn w + i * length prefix)))
  /\ (forall data2 : frame,
        (s <= len data2)%Z ->
        firstn (Z.to_nat s) (HvyAlcoholConsump data2) = prefix ->
        trial_loop trial_count s data2 no_trials w
        = trial_loop trial_count s data no_trials w).
Proof.
  intros Hs prefix.
  assert (Hp : HvyAlcoholConsump (head s data) = prefix)
    by (apply head_prefix; lia).
  split; [exact Hp|]. split.
  { unfold prefix. rewrite <- head_prefix by lia. apply head_length. exact Hs. }
  split.
  - rewrite trial_loop_run. cbv zeta. rewrite Hp.
    eexists _, _. split; [reflexivity|].
    cbn [record_trials no_trials original_counts noised_counts app].
    rewrite !length_map, length_seq.
    split; [reflexivity|]. split; [reflexivity|].
    intros i Hi. rewrite !map_map.
    rewrite (nth_map_seq _ _ _ _ Hi), (nth_map_seq _ _ _ _ Hi).
    split; reflexivity.
  - intros data2 Hs2 Hp2.
    rewrite !trial_loop_run. cbv zeta.
    rewrite Hp, (head_prefix s data2), Hp2 by lia. reflexivity.
Qed.

Lemma trials_use_prefix_witness :
  (0 <= 1 <= len (frame_of [1; 0]%Z))%Z /\
  HvyAlcoholConsump (copy (head 1 (frame_of [1; 0]%Z)))
  = firstn (Z.to_nat 1) (HvyAlcoholConsump (frame_of [1; 0]%Z)).
Proof.
  assert (H : (0 <= 1 <= len (frame_of [1; 0]%Z))%Z) by (cbn; lia).
  split; [exact H|].
  exact (proj1 (trials_use_prefix 1 (frame_of [1; 0]%Z) keeping_world H)).
Defined.

(** ** C9: the summary of a size *)

Lemma script_epsilon_regular : 2 * logistic script_epsilon - 1 <> 0.
Proof. unfold script_epsilon. pose proof logistic_1_bounds. lra. Qed.

(** C9. For a processed size s (0 < s <= number of rows) the loop runs its
    trials and appends one summary; the summary carries s, the arithmetic
    means over the trials of the true counts, the noised counts, the
    estimated counts and the elapsed times, and
    relative_error = |mean estimated - mean true| / s. *)
Theorem size_summary_means (s : Z) (rest : list Z) (data : frame)
  (results : list summary) (w : world) :
  (0 < s <= len data)%Z ->
  exists (acc : trial_lists) (estimates : list R) (w1 : world),
    trial_loop trial_count s data no_trials w = Returns (acc, w1)
    /\ size_loop (s :: rest) data results w
       = size_loop rest data (results ++ [summarize s acc]) w1
    /\ length (original_counts acc) = trial_count
    /\ length (noised_counts acc) = trial_count
    /\ length estimates = trial_count
    /\ length (runtimes acc) = trial_count
    /\ denoised_counts acc = map Fin estimates
    /\ size_of (summarize s acc) = s
    /\ mean_original_count (summarize s acc)
       = Fin (arithmetic_mean (map IZR (original_counts acc)))
    /\ mean_noised_count (summarize s acc)
       = Fin (arithmetic_mean (map IZR (noised_counts acc)))
    /\ mean_denoised_count (summarize s acc)
       = Fin (arithmetic_mean estimates)
    /\ mean_runtime (summarize s acc)
       = Fin (arithmetic_mean (runtimes acc))
    /\ relative_error (summarize s acc)
       = Fin (Rabs (arithmetic_mean estimates
                    - arithmetic_mean (map IZR (original_counts acc)))
              / IZR s).
Proof.
  intros Hs.
  set (slice := HvyAlcoholConsump (head s data)).
  assert (Hlen : Z.of_nat (length slice) = s).
  { unfold slice. rewrite head_length by lia. lia. }
  set (ts := map (trial_at slice w) (seq 0 trial_count)).
  set (estimates :=
         map (fun t => estimate (IZR (noised_count t)) (IZR s)
                                (logistic script_epsilon)) ts).
  assert (Hest : map estimated_count ts = map Fin estimates).
  { unfold estimates, ts. rewrite !map_map. apply map_ext. intros i.
    cbn [trial_at estimated_count noised_count]. rewrite Hlen.
    apply denoise_fin; [lia | apply script_epsilon_regular]. }
  assert (Hts : length ts = trial_count)
    by (unfold ts; rewrite length_map, length_seq; reflexivity).
  exists (record_trials no_trials ts), estimates,
         (after_trials trial_count (length slice) w).
  split; [apply trial_loop_run|].
  split.
  { cbn [size_loop]. destruct (Z.gtb_spec s (len data)); [lia|].
    erewrite bind_returns by apply trial_loop_run. reflexivity. }
  cbn [record_trials no_trials original_counts noised_counts denoised_counts
       runtimes app].
  rewrite !length_map, Hts.
  split; [reflexivity|]. split; [reflexivity|].
  split; [unfold estimates; rewrite length_map; exact Hts|].
  split; [reflexivity|]. split; [exact Hest|]. split; [reflexivity|].
  assert (Hne : forall (A : Type) (f : trial -> A), map f ts <> []).
  { intros A f. unfold ts, trial_count. cbn. discriminate. }
  assert (Hne' : estimates <> []).
  { unfold estimates. apply Hne. }
  unfold summarize.
  cbn [mean_original_count mean_noised_count mean_denoised_count mean_runtime
       relative_error original_counts noised_counts denoised_counts runtimes
       record_trials no_trials app].
  rewrite !np_mean_of_int by apply Hne.
  rewrite (np_mean_fin (map elapsed ts)) by apply Hne.
  rewrite Hest, (np_mean_fin estimates) by exact Hne'.
  repeat (split; [reflexivity|]).
  cbn [sub neg add abs]. unfold of_int.
  rewrite div_fin by (apply not_0_IZR; lia).
  reflexivity.
Qed.

Lemma size_summary_means_witness :
  (0 < 2 <= len (frame_of [1; 0]%Z))%Z /\
  exists (acc : trial_lists) (estimates : list R) (w1 : world),
    trial_loop trial_count 2 (frame_of [1; 0]%Z) no_trials keeping_world
    = Returns (acc, w1)
    /\ size_loop [2]%Z (frame_of [1; 0]%Z) [] keeping_world
       = size_loop [] (frame_of [1; 0]%Z) ([] ++ [summarize 2 acc]) w1
    /\ length (original_counts acc) = trial_count
    /\ length (noised_counts acc) = trial_count
    /\ length estimates = trial_count
    /\ length (runtimes acc) = trial_count
    /\ denoised_counts acc = map Fin estimates
    /\ size_of (summarize 2 acc) = 2%Z
    /\ mean_original_count (summarize 2 acc)
       = Fin (arithmetic_mean (map IZR (original_counts acc)))
    /\ mean_noised_count (summarize 2 acc)
       = Fin (arithmetic_mean (map IZR (noised_counts acc)))
    /\ mean_denoised_count (summarize 2 acc)
       = Fin (arithmetic_mean estimates)
    /\ mean_runtime (summarize 2 acc)
       = Fin (arithmetic_mean (runtimes acc))
    /\ relative_error (summarize 2 acc)
       = Fin (Rabs (arithmetic_mean estimates
                    - arithmetic_mean (map IZR (original_counts acc)))
              / IZR 2).
Proof.
  assert (H : (0 < 2 <= len (frame_of [1; 0]%Z))%Z) by (cbn; lia).
  split; [exact H|].
  exact (size_summary_means 2 [] (frame_of [1; 0]%Z) [] keeping_world H).
Defined.


(** ** C3: the retention probability the program computes *)




(** ** C2: the mechanism and the p it computed *)

Lemma uniform_prob_of_interval (E : R -> Prop) (a b x : R) :
  0 <= a <= b -> b <= 1 ->
  (forall r, 0 <= r < 1 -> (E r <-> a <= r < b)) ->
  x = b - a ->
  uniform_prob E x.
Proof. intros Hab Hb HE ->. constructor; assumption. Qed.

Lemma mechanism_run (p : float64) (v : Z) (w : world) :
  mechanism p v w
  = Returns (if ltb (Fin (draws w (drawn w))) p then v else (1 - v)%Z,
             skip_draws 1 w).
Proof.
  unfold mechanism. erewrite bind_returns by reflexivity.
  destruct (ltb _ _); reflexivity.
Qed.

Lemma mechanism_outcome_iff (p : float64) (v : Z) (r : R) (v' : Z) :
  mechanism_outcome p v r v'
  <-> (if ltb (Fin r) p then v else (1 - v)%Z) = v'.
Proof.
  unfold mechanism_outcome. split.
  - intros H.
    specialize (H (mkWorld (fun _ => r) 0 (fun _ => 0) 0) eq_refl).
    rewrite mechanism_run in H. cbn [draws drawn] in H. congruence.
  - intros H w Hr. rewrite mechanism_run, Hr, H. reflexivity.
Qed.

Lemma series_apply_mechanism (p : float64) (col : list Z) :
  forall w : world,
  exists noised : list Z,
    series_apply (mechanism p) col w
    = Returns (noised, skip_draws (length col) w)
    /\ length noised = length col
    /\ forall i, (i < length col)%nat ->
         nth i noised 0%Z
         = if ltb (Fin (draws w (drawn w + i))) p
           then nth i col 0%Z else (1 - nth i col 0)%Z.
Proof.
  induction col as [|x rest IH]; intros w.
  - exists []. cbn. unfold ret. rewrite skip_draws_0.
    split; [reflexivity|]. split; [reflexivity|]. intros i Hi. lia.
  - destruct (IH (skip_draws 1 w)) as (ys & Hrun & Hlen & Hnth).
    eexists (_ :: ys). cbn [series_apply].
    erewrite bind_returns by apply mechanism_run.
    erewrite bind_returns by exact Hrun.
    unfold ret. rewrite skip_draws_add. cbn [length Nat.add].
    split; [reflexivity|]. split; [rewrite Hlen; reflexivity|].
    intros [|i] Hi; cbn [nth].
    + rewrite Nat.add_0_r. reflexivity.
    + rewrite Hnth by lia. cbn [skip_draws draws drawn].
      replace (drawn w + 1 + i)%nat with (drawn w + S i)%nat by lia.
      reflexivity.
Qed.

(** C2, as the spec states it, fails: at epsilon = 710 the draw 0 is below
    e^epsilon / (1 + e^epsilon), yet the program, whose p is nan there,
    returns 1 - v. *)
Lemma overflowed_epsilon_always_flips :
  0 < logistic 710
  /\ Binary64.randomized_response 1 Binary64.exp_710 0%float = 0%Z
  /\ Binary64.randomized_response 0 Binary64.exp_710 0%float = 1%Z.
Proof.
  split; [apply logistic_range|].
  split; vm_compute; reflexivity.
Qed.

(** C2, amended. Whatever value p line 17 computed (a number, an infinity
    or nan), a call returns v exactly when its draw r satisfies r < p and
    1 - v otherwise, consumes exactly that one draw, and has the same outcome
    in every world that delivers the same draw; applied to a column it
    consumes one draw per record and record i depends on draw i alone.  When
    p is a number q of [0,1] the draws that keep v form [0,q) (probability q)
    and those that flip it [q,1) (probability 1 - q); when p is nan no draw
    keeps v.  In exact arithmetic p = e^epsilon / (1 + e^epsilon); in
    binary64 p is 1.0 at epsilon = 40 and nan at epsilon = 710, where draw 0
    flips. *)
Theorem mechanism_keeps_below_computed_p :
  (forall (p : float64) (v : Z) (w : world),
     exists v' : Z,
       mechanism p v w = Returns (v', skip_draws 1 w)
       /\ (v' = v <-> ltb (Fin (draws w (drawn w))) p = true)
       /\ (v' = (1 - v)%Z <-> ltb (Fin (draws w (drawn w))) p = false)
       /\ mechanism_outcome p v (draws w (drawn w)) v')
  /\ (forall (q : R) (v : Z),
        0 <= q <= 1 ->
        uniform_prob (fun r => mechanism_outcome (Fin q) v r v) q
        /\ uniform_prob (fun r => mechanism_outcome (Fin q) v r (1 - v)%Z)
                        (1 - q))
  /\ (forall v : Z,
        uniform_prob (fun r => mechanism_outcome NaN v r v) 0
        /\ uniform_prob (fun r => mechanism_outcome NaN v r (1 - v)%Z) 1)
  /\ (forall (p : float64) (col : list Z) (w : world),
        exists noised : list Z,
          series_apply (mechanism p) col w
          = Returns (noised, skip_draws (length col) w)
          /\ length noised = length col
          /\ forall i, (i < length col)%nat ->
               mechanism_outcome p (nth i col 0%Z)
                                 (draws w (drawn w + i)) (nth i noised 0%Z))
  /\ (forall (v : Z) (epsilon : R),
        randomized_response v epsilon = mechanism (p_of_epsilon epsilon) v
        /\ p_of_epsilon epsilon = Fin (logistic epsilon))
  /\ Binary64.p_of_exp Binary64.exp_40 = 1%float
  /\ PrimFloat.is_nan (Binary64.p_of_exp Binary64.exp_710) = true
  /\ Binary64.randomized_response 1 Binary64.exp_710 0%float = 0%Z.
Proof.
  split; [|split; [|split; [|split; [|split]]]].
  - intros p v w.
    exists (if ltb (Fin (draws w (drawn w))) p then v else (1 - v)%Z).
    split; [apply mechanism_run|].
    split; [|split].
    + destruct (ltb _ _); split; intros H; try reflexivity;
        try discriminate; lia.
    + destruct (ltb _ _); split; intros H; try reflexivity;
        try discriminate; lia.
    + apply mechanism_outcome_iff. reflexivity.
  - intros q v Hq. split.
    + apply (uniform_prob_of_interval _ 0 q); [lra|lra| |lra].
      intros r Hr. rewrite mechanism_outcome_iff. cbn [ltb].
      destruct (Rlt_dec r q); split; intros H; try reflexivity; try lra; lia.
    + apply (uniform_prob_of_interval _ q 1); [lra|lra| |lra].
      intros r Hr. rewrite mechanism_outcome_iff. cbn [ltb].
      destruct (Rlt_dec r q); split; intros H; try reflexivity; try lra; lia.
  - intros v. split.
    + apply (uniform_prob_of_interval _ 0 0); [lra|lra| |lra].
      intros r Hr. rewrite mechanism_outcome_iff. cbn [ltb].
      split; intros H; [lia|lra].
    + apply (uniform_prob_of_interval _ 0 1); [lra|lra| |lra].
      intros r Hr. rewrite mechanism_outcome_iff. cbn [ltb].
      split; intros H; [lra|reflexivity].
  - intros p col w.
    destruct (series_apply_mechanism p col w) as (noised & Hrun & Hlen & Hnth).
    exists noised. split; [exact Hrun|]. split; [exact Hlen|].
    intros i Hi. apply mechanism_outcome_iff. symmetry. apply Hnth, Hi.
  - intros v epsilon. split; [reflexivity|apply p_of_epsilon_fin].
  - repeat split; vm_compute; reflexivity.
Qed.

Lemma mechanism_keeps_below_computed_p_witness :
  0 <= 1 / 2 <= 1 /\
  uniform_prob (fun r => mechanism_outcome (Fin (1 / 2)) 1 r 1%Z) (1 / 2)
  /\ uniform_prob (fun r => mechanism_outcome (Fin (1 / 2)) 1 r (1 - 1)%Z)
                  (1 - 1 / 2).
Proof.
  assert (H : 0 <= 1 / 2 <= 1) by lra.
  split; [exact H|].
  exact (proj1 (proj2 mechanism_keeps_below_computed_p) (1 / 2) 1%Z H).
Defined.

(** * Further properties of the code *)

(** ** The mechanism *)









(** ** [analyze_data] *)

Lemma binary_sum_bounds (col : list Z) :
  Forall binary col -> (0 <= series_sum col <= Z.of_nat (length col))%Z.
Proof.
  induction 1 as [|v col Hv _ IH]; cbn [series_sum fold_right length].
  - lia.
  - unfold series_sum in IH. unfold binary in Hv. lia.
Qed.

Lemma noise_binary (col : list Z) (epsilon : R) (f : nat -> R) :
  Forall binary col -> forall k, Forall binary (noise col epsilon f k).
Proof.
  induction 1 as [|v col Hv _ IH]; intros k; cbn [noise]; constructor.
  - unfold rr_value, binary in *. destruct (Rlt_dec _ _); lia.
  - apply IH.
Qed.




Lemma regular_epsilon (epsilon : R) :
  epsilon <> 0 -> 2 * logistic epsilon - 1 <> 0.
Proof.
  intros H E. apply H. apply logistic_half_iff. lra.
Qed.

Lemma estimate_unfold (c n p : R) :
  n <> 0 -> 2 * p - 1 <> 0 ->
  estimate c n p * (2 * p - 1) = c - n * (1 - p).
Proof.
  intros Hn Hp. unfold estimate. field. split; assumption.
Qed.

(** X3. On a column of binary observations [analyze_data] returns, whatever
    epsilon and the draws are, a noised column that is binary and as long as
    the column, and both counts lie between 0 and the number of rows. *)
Theorem analyze_data_keeps_binary (data : frame) (epsilon : R) (w : world) :
  Forall binary (HvyAlcoholConsump data) ->
  exists data' original_count noised_count estimated w',
    analyze_data data epsilon w
    = Returns (data', (original_count, noised_count, estimated), w')
    /\ Forall binary (noised_column data')
    /\ length (noised_column data') = length (HvyAlcoholConsump data)
    /\ (0 <= original_count <= len data)%Z
    /\ (0 <= noised_count <= len data)%Z.
Proof.
  intros Hb. eexists _, _, _, _, _. split; [apply analyze_data_run|].
  cbn [noised_column set_noised HvyAlcoholConsump_noised].
  pose proof (noise_binary _ epsilon (draws w) Hb (drawn w)) as Hn.
  split; [exact Hn|]. split; [apply noise_length|].
  split.
  - apply binary_sum_bounds. exact Hb.
  - unfold len. rewrite <- (noise_length _ epsilon (draws w) (drawn w)).
    apply binary_sum_bounds. exact Hn.
Qed.

Lemma analyze_data_keeps_binary_witness :
  Forall binary (HvyAlcoholConsump (frame_of [1; 0]%Z)) /\
  exists data' original_count noised_count estimated w',
    analyze_data (frame_of [1; 0]%Z) 1 mixed_world
    = Returns (data', (original_count, noised_count, estimated), w')
    /\ Forall binary (noised_column data')
    /\ length (noised_column data')
       = length (HvyAlcoholConsump (frame_of [1; 0]%Z))
    /\ (0 <= original_count <= len (frame_of [1; 0]%Z))%Z
    /\ (0 <= noised_count <= len (frame_of [1; 0]%Z))%Z.
Proof.
  assert (H : Forall binary (HvyAlcoholConsump (frame_of [1; 0]%Z))).
  { repeat constructor; unfold binary; lia. }
  split; [exact H|].
  exact (analyze_data_keeps_binary (frame_of [1; 0]%Z) 1 mixed_world H).
Defined.




(** The order of the estimates in exact arithmetic, for any epsilon <> 0. *)
Lemma estimate_monotone_exact
  (data1 data2 : frame) (epsilon : R) (w1 w2 : world)
  (out1 out2 : frame) (true1 true2 noised1 noised2 : Z)
  (estimated1 estimated2 : float64) (w1' w2' : world) :
  analyze_data data1 epsilon w1
    = Returns (out1, (true1, noised1, estimated1), w1') ->
  analyze_data data2 epsilon w2
    = Returns (out2, (true2, noised2, estimated2), w2') ->
  (0 < len data1)%Z ->
  len data1 = len data2 ->
  epsilon <> 0 ->
  exists x1 x2 : R,
    estimated1 = Fin x1 /\ estimated2 = Fin x2
    /\ (0 < epsilon -> ((noised1 < noised2)%Z <-> x1 < x2))
    /\ (epsilon < 0 -> ((noised1 < noised2)%Z <-> x2 < x1)).
Proof.
  intros H1 H2 Hn Hlen Heps.
  pose proof (regular_epsilon _ Heps) as Hp.
  rewrite analyze_data_run in H1, H2. cbv zeta in H1, H2.
  injection H1 as _ _ Hc1 He1 _. injection H2 as _ _ Hc2 He2 _.
  rewrite Hc1 in He1. rewrite Hc2 in He2.
  rewrite denoise_fin in He1 by assumption.
  rewrite denoise_fin in He2 by (try assumption; lia).
  rewrite <- Hlen in He2.
  assert (Hn' : IZR (len data1) <> 0) by (apply not_0_IZR; lia).
  pose proof (estimate_unfold (IZR noised1) _ _ Hn' Hp) as E1.
  pose proof (estimate_unfold (IZR noised2) _ _ Hn' Hp) as E2.
  eexists _, _. split; [symmetry; exact He1|].
  split; [symmetry; exact He2|].
  set (x1 := estimate (IZR noised1) _ _) in *.
  set (x2 := estimate (IZR noised2) _ _) in *.
  pose proof (logistic_half_iff epsilon) as [Hhalf _].
  split; intros Hs.
  - assert (0 < 2 * logistic epsilon - 1) by (apply Hhalf in Hs; lra).
    split; intros Hlt.
    + apply IZR_lt in Hlt. nra.
    + apply lt_IZR. nra.
  - assert (2 * logistic epsilon - 1 < 0).
    { destruct (Rtotal_order (2 * logistic epsilon - 1) 0) as [?|[?|Hgt]];
        [assumption|contradiction|].
      assert (0 < epsilon) by (apply Hhalf; lra). lra. }
    split; intros Hlt.
    + apply IZR_lt in Hlt. nra.
    + apply lt_IZR. nra.
Qed.

(** X5. At the epsilon the program runs with (1.0), on frames of the same
    non-zero length, both estimates are finite and ordered like the noised
    counts: more noised ones give a larger estimate. *)
Theorem estimate_monotone
  (data1 data2 : frame) (w1 w2 : world)
  (out1 out2 : frame) (true1 true2 noised1 noised2 : Z)
  (estimated1 estimated2 : float64) (w1' w2' : world) :
  analyze_data data1 script_epsilon w1
    = Returns (out1, (true1, noised1, estimated1), w1') ->
  analyze_data data2 script_epsilon w2
    = Returns (out2, (true2, noised2, estimated2), w2') ->
  (0 < len data1)%Z ->
  len data1 = len data2 ->
  exists x1 x2 : R,
    estimated1 = Fin x1 /\ estimated2 = Fin x2
    /\ ((noised1 < noised2)%Z <-> x1 < x2).
Proof.
  intros H1 H2 Hn Hlen.
  assert (Hne : script_epsilon <> 0) by (unfold script_epsilon; lra).
  destruct (estimate_monotone_exact _ _ _ _ _ _ _ _ _ _ _ _ _ _ _
              H1 H2 Hn Hlen Hne) as (x1 & x2 & E1 & E2 & Hpos & _).
  exists x1, x2. split; [exact E1|]. split; [exact E2|].
  apply Hpos. unfold script_epsilon. lra.
Qed.

Lemma estimate_monotone_witness :
  analyze_data (frame_of [1; 0]%Z) script_epsilon keeping_world
  = Returns (set_noised (frame_of [1; 0]%Z) [1; 0]%Z,
             (1%Z, 1%Z, denoise 1 2 script_epsilon),
             skip_draws 2 keeping_world)
  /\ analyze_data (frame_of [1; 1]%Z) script_epsilon keeping_world
     = Returns (set_noised (frame_of [1; 1]%Z) [1; 1]%Z,
                (2%Z, 2%Z, denoise 2 2 script_epsilon),
                skip_draws 2 keeping_world)
  /\ (0 < len (frame_of [1; 0]%Z))%Z
  /\ len (frame_of [1; 0]%Z) = len (frame_of [1; 1]%Z)
  /\ exists x1 x2 : R,
       denoise 1 2 script_epsilon = Fin x1
       /\ denoise 2 2 script_epsilon = Fin x2
       /\ ((1 < 2)%Z <-> x1 < x2).
Proof.
  pose proof (logistic_range script_epsilon) as [Hlo Hhi].
  assert (H1 : analyze_data (frame_of [1; 0]%Z) script_epsilon keeping_world
    = Returns (set_noised (frame_of [1; 0]%Z) [1; 0]%Z,
               (1%Z, 1%Z, denoise 1 2 script_epsilon),
               skip_draws 2 keeping_world)).
  { rewrite analyze_data_run. cbv zeta.
    cbn [frame_of HvyAlcoholConsump noise keeping_world draws drawn length].
    rewrite !rr_value_keep by lra. reflexivity. }
  assert (H2 : analyze_data (frame_of [1; 1]%Z) script_epsilon keeping_world
    = Returns (set_noised (frame_of [1; 1]%Z) [1; 1]%Z,
               (2%Z, 2%Z, denoise 2 2 script_epsilon),
               skip_draws 2 keeping_world)).
  { rewrite analyze_data_run. cbv zeta.
    cbn [frame_of HvyAlcoholConsump noise keeping_world draws drawn length].
    rewrite !rr_value_keep by lra. reflexivity. }
  assert (H3 : (0 < len (frame_of [1; 0]%Z))%Z) by reflexivity.
  assert (H4 : len (frame_of [1; 0]%Z) = len (frame_of [1; 1]%Z))
    by reflexivity.
  split; [exact H1|]. split; [exact H2|]. split; [exact H3|].
  split; [exact H4|].
  exact (estimate_monotone _ _ _ _ _ _ _ _ _ _ _ _ _ _ H1 H2 H3 H4).
Defined.






(** X8. What [analyze_data] touches.  A call consumes exactly one draw per
    row and no clock reading; it leaves the observation column as it was and
    sets a noised column of the same length; and a noised column already in
    the frame has no influence on the result. *)
Theorem analyze_data_footprint (data : frame) (epsilon : R) (w : world) :
  exists data' result,
    analyze_data data epsilon w
    = Returns (data', result,
               skip_draws (length (HvyAlcoholConsump data)) w)
    /\ ticked (skip_draws (length (HvyAlcoholConsump data)) w) = ticked w
    /\ HvyAlcoholConsump data' = HvyAlcoholConsump data
    /\ (exists col, HvyAlcoholConsump_noised data' = Some col
                    /\ length col = length (HvyAlcoholConsump data))
    /\ (forall old : list Z,
          analyze_data (set_noised data old) epsilon w
          = Returns (data', result,
                     skip_draws (length (HvyAlcoholConsump data)) w)).
Proof.
  eexists _, _. split; [apply analyze_data_run|].
  split; [reflexivity|]. split; [reflexivity|]. split.
  - eexists. split; [reflexivity|]. apply noise_length.
  - intros old. rewrite analyze_data_run. reflexivity.
Qed.

(** ** The summary of a size *)

Lemma Rsum_bounds (a b : R) (l : list R) :
  Forall (fun x => a <= x <= b) l ->
  INR (length l) * a <= Rsum l <= INR (length l) * b.
Proof.
  induction 1 as [|x l Hx _ IH].
  - cbn. lra.
  - cbn [length Rsum fold_right]. rewrite S_INR. unfold Rsum in IH. lra.
Qed.

Lemma mean_bounds (a b : R) (l : list R) :
  l <> [] ->
  Forall (fun x => a <= x <= b) l ->
  a <= arithmetic_mean l <= b.
Proof.
  intros Hl H. apply Rsum_bounds in H.
  assert (Hn : 0 < INR (length l)).
  { destruct l; [contradiction|]. apply lt_0_INR. cbn. lia. }
  unfold arithmetic_mean, Rdiv.
  assert (Hi : 0 < / INR (length l)) by (apply Rinv_0_lt_compat; exact Hn).
  assert (Hone : INR (length l) * / INR (length l) = 1)
    by (apply Rinv_r; lra).
  split.
  - apply Rmult_le_reg_r with (INR (length l)); [exact Hn|].
    rewrite Rmult_assoc, Rinv_l by lra. lra.
  - apply Rmult_le_reg_r with (INR (length l)); [exact Hn|].
    rewrite Rmult_assoc, Rinv_l by lra. lra.
Qed.

Lemma trials_nonempty (slice : list Z) (w : world) :
  map (trial_at slice w) (seq 0 trial_count) <> [].
Proof. unfold trial_count. cbn. discriminate. Qed.

(** One turn of the size loop for a size that fits. *)
Lemma size_loop_step (s : Z) (rest : list Z) (data : frame)
  (results : list summary) (w : world) :
  (s <= len data)%Z ->
  let slice := HvyAlcoholConsump (head s data) in
  let ts := map (trial_at slice w) (seq 0 trial_count) in
  size_loop (s :: rest) data results w
  = size_loop rest data
      (results ++ [summarize s (record_trials no_trials ts)])
      (after_trials trial_count (length slice) w).
Proof.
  intros Hs slice ts. cbn [size_loop].
  destruct (Z.gtb_spec s (len data)); [lia|].
  erewrite bind_returns by apply trial_loop_run. reflexivity.
Qed.

Lemma summarize_finite_means (s : Z) (ts : list trial) :
  ts <> [] ->
  mean_original_count (summarize s (record_trials no_trials ts))
  = Fin (arithmetic_mean (map (fun t => IZR (true_count t)) ts))
  /\ mean_noised_count (summarize s (record_trials no_trials ts))
     = Fin (arithmetic_mean (map (fun t => IZR (noised_count t)) ts))
  /\ mean_runtime (summarize s (record_trials no_trials ts))
     = Fin (arithmetic_mean (map elapsed ts)).
Proof.
  intros Hts.
  assert (Hne : forall (A : Type) (f : trial -> A), map f ts <> []).
  { intros A f. destruct ts; [contradiction|discriminate]. }
  unfold summarize.
  cbn [mean_original_count mean_noised_count mean_runtime original_counts
       noised_counts runtimes record_trials no_trials app].
  rewrite !np_mean_of_int by apply Hne.
  rewrite np_mean_fin by apply Hne.
  rewrite !map_map. auto.
Qed.

Lemma summarize_relative_error (s : Z) (ts : list trial) (es : list R) :
  ts <> [] ->
  s <> 0%Z ->
  map estimated_count ts = map Fin es ->
  mean_denoised_count (summarize s (record_trials no_trials ts))
  = Fin (arithmetic_mean es)
  /\ relative_error (summarize s (record_trials no_trials ts))
     = Fin (Rabs (arithmetic_mean es
                  - arithmetic_mean (map (fun t => IZR (true_count t)) ts))
            / IZR s).
Proof.
  intros Hts Hs Hes.
  assert (Hne : es <> []).
  { destruct es; [|discriminate]. destruct ts; [contradiction|discriminate]. }
  pose proof (summarize_finite_means s ts Hts) as (Ho & _ & _).
  unfold summarize in *.
  cbn [mean_original_count mean_denoised_count relative_error
       original_counts denoised_counts record_trials no_trials app] in *.
  rewrite Ho, Hes, np_mean_fin by exact Hne.
  split; [reflexivity|].
  cbn [sub neg add abs]. unfold of_int.
  rewrite div_fin by (apply not_0_IZR; exact Hs). reflexivity.
Qed.

(** The estimates of the trials of a positive size. *)
Lemma trial_estimates (slice : list Z) (w : world) :
  slice <> [] ->
  map estimated_count (map (trial_at slice w) (seq 0 trial_count))
  = map Fin
      (map (fun t => estimate (IZR (noised_count t))
                              (IZR (Z.of_nat (length slice)))
                              (logistic script_epsilon))
           (map (trial_at slice w) (seq 0 trial_count))).
Proof.
  intros Hs. rewrite !map_map. apply map_ext. intros i.
  cbn [trial_at estimated_count noised_count].
  apply denoise_fin; [|apply script_epsilon_regular].
  destruct slice; [contradiction|]. cbn [length]. lia.
Qed.

Lemma mean_constant (c : R) (l : list R) :
  l <> [] -> Forall (fun x => x = c) l -> arithmetic_mean l = c.
Proof.
  intros Hl H.
  assert (Hb : c <= arithmetic_mean l <= c).
  { apply mean_bounds; [exact Hl|].
    apply Forall_impl with (2 := H). intros x ->. lra. }
  lra.
Qed.

Lemma Forall_trials {P : R -> Prop} (f : trial -> R) (slice : list Z)
  (w : world) :
  (forall i, P (f (trial_at slice w i))) ->
  Forall P (map f (map (trial_at slice w) (seq 0 trial_count))).
Proof.
  intros H. rewrite map_map. apply Forall_forall. intros x Hx.
  apply in_map_iff in Hx. destruct Hx as [i [<- _]]. apply H.
Qed.

Lemma map_trials_nonempty {A} (f : trial -> A) (slice : list Z) (w : world) :
  map f (map (trial_at slice w) (seq 0 trial_count)) <> [].
Proof. unfold trial_count. cbn. discriminate. Qed.

(** X10. The mean of the true counts of a size is no average of different
    values: every trial counts the same slice, so for 0 <= s <= number of
    rows the summary of s carries exactly the number of ones among the first
    s observations. *)
Theorem mean_true_count_exact (s : Z) (rest : list Z) (data : frame)
  (results : list summary) (w : world) :
  (0 <= s <= len data)%Z ->
  exists (sm : summary) (w1 : world),
    size_loop (s :: rest) data results w
    = size_loop rest data (results ++ [sm]) w1
    /\ size_of sm = s
    /\ mean_original_count sm
       = Fin (IZR (series_sum
                     (firstn (Z.to_nat s) (HvyAlcoholConsump data)))).
Proof.
  intros Hs. eexists _, _. split; [apply size_loop_step; lia|].
  split; [reflexivity|].
  pose proof (summarize_finite_means s _
                (trials_nonempty (HvyAlcoholConsump (head s data)) w))
    as (Ho & _ & _).
  rewrite Ho. f_equal. rewrite <- head_prefix by lia.
  apply mean_constant; [apply map_trials_nonempty|].
  apply Forall_trials. intros i. reflexivity.
Qed.

Lemma mean_true_count_exact_witness :
  (0 <= 2 <= len (frame_of [1; 0; 1]%Z))%Z /\
  exists (sm : summary) (w1 : world),
    size_loop [2]%Z (frame_of [1; 0; 1]%Z) [] mixed_world
    = size_loop [] (frame_of [1; 0; 1]%Z) ([] ++ [sm]) w1
    /\ size_of sm = 2%Z
    /\ mean_original_count sm
       = Fin (IZR (series_sum
                     (firstn (Z.to_nat 2)
                             (HvyAlcoholConsump (frame_of [1; 0; 1]%Z))))).
Proof.
  assert (H : (0 <= 2 <= len (frame_of [1; 0; 1]%Z))%Z) by (cbn; lia).
  split; [exact H|].
  exact (mean_true_count_exact 2 [] (frame_of [1; 0; 1]%Z) [] mixed_world H).
Defined.

(** X11. For 0 < s <= number of rows the relative error of the summary of s
    is a finite number x >= 0, the distance between the mean estimate m and
    the number t of ones among the first s observations, divided by s; it is
    0 exactly when m = t. *)
Theorem relative_error_nonnegative (s : Z) (rest : list Z) (data : frame)
  (results : list summary) (w : world) :
  (0 < s <= len data)%Z ->
  let t := series_sum (firstn (Z.to_nat s) (HvyAlcoholConsump data)) in
  exists (sm : summary) (w1 : world) (m x : R),
    size_loop (s :: rest) data results w
    = size_loop rest data (results ++ [sm]) w1
    /\ mean_denoised_count sm = Fin m
    /\ relative_error sm = Fin x
    /\ x = Rabs (m - IZR t) / IZR s
    /\ 0 <= x
    /\ (x = 0 <-> m = IZR t).
Proof.
  intros Hs t.
  set (slice := HvyAlcoholConsump (head s data)).
  assert (Hlen : length slice = Z.to_nat s) by (apply head_length; lia).
  assert (Hne : slice <> []).
  { intros E. rewrite E in Hlen. cbn in Hlen. lia. }
  pose proof (summarize_relative_error s _ _ (trials_nonempty slice w)
                ltac:(lia) (trial_estimates slice w Hne)) as [Hm Hr].
  assert (Hmean : arithmetic_mean
                    (map (fun t0 => IZR (true_count t0))
                         (map (trial_at slice w) (seq 0 trial_count)))
                  = IZR t).
  { apply mean_constant; [apply map_trials_nonempty|].
    apply Forall_trials. intros i. cbn [trial_at true_count].
    unfold t. rewrite <- head_prefix by lia. reflexivity. }
  rewrite Hmean in Hr.
  eexists _, _, _, _. split; [apply size_loop_step; lia|].
  split; [exact Hm|]. split; [exact Hr|]. split; [reflexivity|].
  assert (Hs' : 0 < IZR s) by (apply IZR_lt; lia).
  set (m := arithmetic_mean _).
  pose proof (Rabs_pos (m - IZR t)) as Ha.
  assert (Hi : 0 < / IZR s) by (apply Rinv_0_lt_compat; exact Hs').
  unfold Rdiv. split; [nra|]. split; intros H.
  - assert (Hz : Rabs (m - IZR t) = 0) by nra.
    destruct (Req_dec (m - IZR t) 0) as [E|E]; [lra|].
    apply Rabs_no_R0 in E. contradiction.
  - rewrite H. replace (IZR t - IZR t) with 0 by lra. rewrite Rabs_R0. lra.
Qed.

Lemma relative_error_nonnegative_witness :
  (0 < 2 <= len (frame_of [1; 0; 1]%Z))%Z /\
  exists (sm : summary) (w1 : world) (m x : R),
    size_loop [2]%Z (frame_of [1; 0; 1]%Z) [] mixed_world
    = size_loop [] (frame_of [1; 0; 1]%Z) ([] ++ [sm]) w1
    /\ mean_denoised_count sm = Fin m
    /\ relative_error sm = Fin x
    /\ x = Rabs (m - IZR (series_sum
                            (firstn (Z.to_nat 2)
                               (HvyAlcoholConsump (frame_of [1; 0; 1]%Z)))))
           / IZR 2
    /\ 0 <= x
    /\ (x = 0 <->
        m = IZR (series_sum
                   (firstn (Z.to_nat 2)
                      (HvyAlcoholConsump (frame_of [1; 0; 1]%Z))))).
Proof.
  assert (H : (0 < 2 <= len (frame_of [1; 0; 1]%Z))%Z) by (cbn; lia).
  split; [exact H|].
  exact (relative_error_nonnegative 2 [] (frame_of [1; 0; 1]%Z) []
           mixed_world H).
Defined.

(** X12. When the clock never goes back, the elapsed time of every trial is
    non-negative, and so is the mean runtime of every size that fits. *)
Theorem mean_runtime_nonnegative (s : Z) (rest : list Z) (data : frame)
  (results : list summary) (w : world) :
  monotone_clock w ->
  (s <= len data)%Z ->
  exists (sm : summary) (w1 : world) (r : R),
    size_loop (s :: rest) data results w
    = size_loop rest data (results ++ [sm]) w1
    /\ mean_runtime sm = Fin r
    /\ 0 <= r.
Proof.
  intros Hc Hs.
  set (slice := HvyAlcoholConsump (head s data)).
  pose proof (summarize_finite_means s _ (trials_nonempty slice w))
    as (_ & _ & Hr).
  eexists _, _, _. split; [apply size_loop_step; exact Hs|].
  split; [exact Hr|].
  assert (Hb : 0 <= arithmetic_mean
                      (map elapsed (map (trial_at slice w)
                                        (seq 0 trial_count)))
               <= arithmetic_mean
                    (map elapsed (map (trial_at slice w)
                                      (seq 0 trial_count)))).
  { split; [|lra].
    enough (Hall : Forall (fun x => 0 <= x) (map elapsed
              (map (trial_at slice w) (seq 0 trial_count)))).
    { unfold arithmetic_mean. apply Rmult_le_pos.
      - clear - Hall. induction Hall as [|x l Hx _ IH]; cbn; [lra|].
        unfold Rsum in IH. lra.
      - left. apply Rinv_0_lt_compat. rewrite !length_map, length_seq.
        unfold trial_count. cbn. lra. }
    apply Forall_trials. intros i. cbn [trial_at elapsed].
    pose proof (Hc (ticked w + 2 * i)%nat (ticked w + 2 * i + 1)%nat
                  ltac:(lia)).
    lra. }
  lra.
Qed.

Lemma mean_runtime_nonnegative_witness :
  monotone_clock keeping_world /\
  (1 <= len (frame_of [1; 0]%Z))%Z /\
  exists (sm : summary) (w1 : world) (r : R),
    size_loop [1]%Z (frame_of [1; 0]%Z) [] keeping_world
    = size_loop [] (frame_of [1; 0]%Z) ([] ++ [sm]) w1
    /\ mean_runtime sm = Fin r
    /\ 0 <= r.
Proof.
  assert (H1 : monotone_clock keeping_world).
  { intros i j Hij. cbn. apply le_INR. exact Hij. }
  assert (H2 : (1 <= len (frame_of [1; 0]%Z))%Z) by (cbn; lia).
  split; [exact H1|]. split; [exact H2|].
  exact (mean_runtime_nonnegative 1 [] (frame_of [1; 0]%Z) [] keeping_world
           H1 H2).
Defined.





(** ** The script *)

Lemma size_summaries_app (a b : list Z) (data : frame) :
  forall w : world,
  size_summaries (a ++ b) data w
  = (fst (size_summaries a data w)
       ++ fst (size_summaries b data (snd (size_summaries a data w))),
     snd (size_summaries b data (snd (size_summaries a data w)))).
Proof.
  induction a as [|s a IH]; intros w.
  - cbn. destruct (size_summaries b data w); reflexivity.
  - cbn [app size_summaries]. destruct (s >? len data)%Z; [apply IH|].
    rewrite IH.
    destruct (size_summaries a data _) as [ra wa]. reflexivity.
Qed.

(** X14. The size loop only appends.  The summaries already in [results]
    stay in place and unchanged, at most one summary is added per requested
    size, and looping over a concatenation of two size lists is looping over
    the first and then, from the results and the world reached, over the
    second. *)
Theorem size_loop_appends (a b : list Z) (data : frame)
  (results : list summary) (w : world) :
  (exists (new : list summary) (w' : world),
      size_loop a data results w = Returns (results ++ new, w')
      /\ (length new <= length a)%nat
      /\ map size_of new = fitting a data)
  /\ size_loop (a ++ b) data results w
     = bind (size_loop a data results) (fun r => size_loop b data r) w.
Proof.
  split.
  - eexists _, _. split; [apply size_loop_run|].
    pose proof (size_summaries_sizes a data w) as Hs.
    split; [|exact Hs].
    rewrite <- (length_map size_of), Hs. apply filter_length_le.
  - erewrite bind_returns by apply size_loop_run.
    rewrite !size_loop_run, size_summaries_app.
    cbn [fst snd]. rewrite app_assoc. reflexivity.
Qed.

Lemma fitting_sum_nonneg (sizes : list Z) (data : frame) :
  Forall (fun s => (0 <= s)%Z) sizes ->
  (0 <= series_sum (fitting sizes data))%Z.
Proof.
  induction 1 as [|s sizes Hs _ IH]; cbn [fitting filter]; [cbn; lia|].
  destruct (s <=? len data)%Z; [|exact IH].
  cbn [series_sum fold_right]. unfold fitting, series_sum in IH. lia.
Qed.

Lemma size_summaries_world (sizes : list Z) (data : frame) :
  Forall (fun s => (0 <= s)%Z) sizes ->
  forall w : world,
  snd (size_summaries sizes data w)
  = mkWorld (draws w)
            (drawn w + trial_count * Z.to_nat (series_sum (fitting sizes data)))
            (ticks w)
            (ticked w + 2 * trial_count * length (fitting sizes data)).
Proof.
  induction 1 as [|s sizes Hs Hall IH]; intros w.
  - cbn. destruct w. cbn. rewrite !Nat.add_0_r. reflexivity.
  - cbn [size_summaries fitting filter].
    rewrite Z.gtb_ltb, Z.ltb_antisym.
    destruct (Z.leb_spec s (len data)) as [Hle|Hgt]; cbn [negb].
    + specialize (IH (after_trials trial_count
          (length (HvyAlcoholConsump (head s data))) w)).
      destruct (size_summaries sizes data _) as [more w'].
      cbn [snd] in *. rewrite IH.
      rewrite head_length by lia.
      pose proof (fitting_sum_nonneg sizes data Hall) as Hnn.
      unfold fitting in *.
      cbn [after_trials draws drawn ticks ticked series_sum fold_right length].
      fold (series_sum (filter (fun s0 => (s0 <=? len data)%Z) sizes)).
      f_equal; lia.
    + apply IH.
Qed.

(** X15. What a run of the size loop costs.  With non-negative sizes the
    loop consumes, per size that fits, ten times that size in draws and
    twenty clock readings, and nothing for a size that does not fit; the
    sequences of draws and readings themselves are untouched. *)
Theorem size_loop_cost (sizes : list Z) (data : frame)
  (results : list summary) (w : world) :
  Forall (fun s => (0 <= s)%Z) sizes ->
  exists (results' : list summary) (w' : world),
    size_loop sizes data results w = Returns (results', w')
    /\ drawn w' = (drawn w + 10 * Z.to_nat (series_sum (fitting sizes data)))%nat
    /\ ticked w' = (ticked w + 20 * length (fitting sizes data))%nat
    /\ draws w' = draws w
    /\ ticks w' = ticks w.
Proof.
  intros Hall. eexists _, _. split; [apply size_loop_run|].
  rewrite (size_summaries_world sizes data Hall w).
  cbn [draws drawn ticks ticked]. unfold trial_count.
  repeat split; lia.
Qed.

Lemma size_loop_cost_witness :
  Forall (fun s => (0 <= s)%Z) [1000; 1; 2]%Z /\
  exists (results' : list summary) (w' : world),
    size_loop [1000; 1; 2]%Z (frame_of [1; 0]%Z) [] keeping_world
    = Returns (results', w')
    /\ drawn w'
       = (drawn keeping_world
          + 10 * Z.to_nat (series_sum
                             (fitting [1000; 1; 2]%Z (frame_of [1; 0]%Z))))%nat
    /\ ticked w'
       = (ticked keeping_world
          + 20 * length (fitting [1000; 1; 2]%Z (frame_of [1; 0]%Z)))%nat
    /\ draws w' = draws keeping_world
    /\ ticks w' = ticks keeping_world.
Proof.
  assert (H : Forall (fun s => (0 <= s)%Z) [1000; 1; 2]%Z).
  { repeat constructor; lia. }
  split; [exact H|].
  exact (size_loop_cost [1000; 1; 2]%Z (frame_of [1; 0]%Z) [] keeping_world H).
Defined.

Lemma fitting_snoc_sorted (l : list Z) (n : Z) :
  StronglySorted Z.le l ->
  StronglySorted Z.le (filter (fun s => (s <=? n)%Z) l ++ [n]).
Proof.
  induction 1 as [|a l Hl IH Ha]; cbn [filter app].
  - repeat constructor.
  - destruct (Z.leb_spec a n) as [Hle|Hgt]; [|exact IH].
    cbn [app]. constructor; [exact IH|].
    apply Forall_app. split.
    + apply Forall_forall. intros x Hx. apply filter_In in Hx.
      destruct Hx as [Hx _]. rewrite Forall_forall in Ha. apply Ha, Hx.
    + constructor; [exact Hle|constructor].
Qed.

Lemma run_script_plot_sizes (data : frame) (w : world) :
  plot_sizes (fst (size_summaries (input_sizes data) data w))
  = fitting [1000; 10000; 30000; 50000; 100000; 150000]%Z data ++ [len data].
Proof.
  unfold plot_sizes. rewrite size_summaries_sizes.
  change (input_sizes data)
    with ([1000; 10000; 30000; 50000; 100000; 150000]%Z ++ [len data]).
  rewrite filter_app. cbn [filter]. rewrite Z.leb_refl. reflexivity.
Qed.

(** X16. What the script plots.  The run returns; the sizes on the x axis
    are the hard-coded sizes that fit followed by the full length of the
    data, so there is at least one point and at most seven, the last one is
    the full data, and the sizes are in non-decreasing order; the two y lists
    are as long as the x list. *)
Theorem run_script_plots (data : frame) (w : world) :
  exists (results : list summary) (w' : world),
    run_script data w = Returns (results, w')
    /\ plot_sizes results
       = fitting [1000; 10000; 30000; 50000; 100000; 150000]%Z data
         ++ [len data]
    /\ Sorted Z.le (plot_sizes results)
    /\ Forall (fun s => (s <= len data)%Z) (plot_sizes results)
    /\ (1 <= length results <= 7)%nat
    /\ length (plot_relative_errors results) = length (plot_sizes results)
    /\ length (plot_runtimes results) = length (plot_sizes results).
Proof.
  unfold run_script. rewrite size_loop_run. cbn [app].
  eexists _, _. split; [reflexivity|].
  pose proof (run_script_plot_sizes data w) as Hs.
  set (results := fst (size_summaries (input_sizes data) data w)) in *.
  split; [exact Hs|]. split; [|split; [|split; [|split]]].
  - rewrite Hs. apply StronglySorted_Sorted, fitting_snoc_sorted.
    repeat constructor; lia.
  - rewrite Hs. apply Forall_app. split.
    + apply Forall_forall. intros x Hx. apply filter_In in Hx.
      apply Z.leb_le, Hx.
    + constructor; [lia|constructor].
  - assert (Hl : length results = length (plot_sizes results))
      by (unfold plot_sizes; rewrite length_map; reflexivity).
    rewrite Hl, Hs, length_app. cbn [length].
    pose proof (filter_length_le (fun s => (s <=? len data)%Z)
                  [1000; 10000; 30000; 50000; 100000; 150000]%Z) as Hf.
    unfold fitting. cbn [length] in Hf. lia.
  - unfold plot_relative_errors, plot_sizes. rewrite !length_map. reflexivity.
  - unfold plot_runtimes, plot_sizes. rewrite !length_map. reflexivity.
Qed.

(** X17. When the data has exactly one of the hard-coded sizes as its
    length, that size is requested twice and benchmarked twice: the last two
    summaries both carry the full length. *)
Theorem full_size_benchmarked_twice (data : frame) (w : world) :
  In (len data) [1000; 10000; 30000; 50000; 100000; 150000]%Z ->
  exists (results : list summary) (w' : world) (before : list Z),
    run_script data w = Returns (results, w')
    /\ plot_sizes results = before ++ [len data; len data].
Proof.
  intros Hin. unfold run_script. rewrite size_loop_run. cbn [app].
  pose proof (run_script_plot_sizes data w) as Hs.
  set (results := fst (size_summaries (input_sizes data) data w)) in *.
  assert (Hb : exists before, plot_sizes results
                              = before ++ [len data; len data]).
  { rewrite Hs. unfold fitting. cbn [In] in Hin.
    destruct Hin as [E|[E|[E|[E|[E|[E|[]]]]]]]; rewrite <- E.
    - exists []. reflexivity.
    - exists [1000]%Z. reflexivity.
    - exists [1000; 10000]%Z. reflexivity.
    - exists [1000; 10000; 30000]%Z. reflexivity.
    - exists [1000; 10000; 30000; 50000]%Z. reflexivity.
    - exists [1000; 10000; 30000; 50000; 100000]%Z. reflexivity. }
  destruct Hb as [before Hb].
  eexists _, _, before. split; [reflexivity|exact Hb].
Qed.

Lemma full_size_benchmarked_twice_witness :
  In (len (frame_of (repeat 0%Z 1000)))
     [1000; 10000; 30000; 50000; 100000; 150000]%Z /\
  exists (results : list summary) (w' : world) (before : list Z),
    run_script (frame_of (repeat 0%Z 1000)) keeping_world
    = Returns (results, w')
    /\ plot_sizes results
       = before ++ [len (frame_of (repeat 0%Z 1000));
                    len (frame_of (repeat 0%Z 1000))].
Proof.
  assert (H : In (len (frame_of (repeat 0%Z 1000)))
                 [1000; 10000; 30000; 50000; 100000; 150000]%Z).
  { left. vm_compute. reflexivity. }
  split; [exact H|].
  exact (full_size_benchmarked_twice (frame_of (repeat 0%Z 1000))
           keeping_world H).
Defined.
